(** * InsightsFlow: the happiness tracker, the agent cycle and the report sink

    A shallow embedding of
    - [src/backend/agent_listener.py]: [HappinessTracker] and the two loops
      of [main];
    - [src/frontend/reporter_with_storage.py]: [data_store] and
      [MyReportHandler.do_POST] / [do_GET].

    Python values are modelled as follows.
    - [int] is [Z]; the sum of a list of ints is exact.
    - [float] is a finite binary64 number, kept as the rational it denotes
      ([Q] in lowest terms).  The only floats the tracker produces come from
      [int / int], which CPython rounds correctly (to nearest, ties to
      even) and which raises [OverflowError] when the rounded quotient does
      not fit a double.
    - [str] is [string]; a [dict] keyed by region names is a [gmap string _]
      when only lookups matter and an association list when the iteration
      order is observed.
    - A call that can raise returns an [outcome] next to the state it leaves
      behind: objects mutated before the exception stay mutated. *)

From Stdlib Require Import ZArith QArith List Lia Lqa DecimalString.
From stdpp Require Import base option list strings gmap.

Local Open Scope Z_scope.

(** ** Python primitives *)

Module Py.

Inductive exn :=
| OverflowError
| ZeroDivisionError
| IndexError
| KeyError
| TypeError
| ValueError
| UnicodeDecodeError
| JSONDecodeError.

Inductive outcome (A : Type) :=
| Returns (a : A)
| Raises (e : exn).
Arguments Returns {A} a.
Arguments Raises {A} e.

(** State and exception monad: [M S A] is a statement (or expression) that
    runs on a mutable object of type [S]. *)
Definition M (S A : Type) : Type := S -> outcome A * S.

Definition ret {S A} (a : A) : M S A := fun s => (Returns a, s).
Definition bind {S A B} (m : M S A) (k : A -> M S B) : M S B :=
  fun s => match m s with
           | (Returns a, s') => k a s'
           | (Raises e, s') => (Raises e, s')
           end.
Definition raise {S A} (e : exn) : M S A := fun s => (Raises e, s).
Definition get {S} : M S S := fun s => (Returns s, s).
Definition put {S} (s : S) : M S unit := fun _ => (Returns tt, s).
Definition modify {S} (f : S -> S) : M S unit := fun s => (Returns tt, f s).
Definition lift {S A} (o : outcome A) : M S A := fun s => (o, s).
Definition when {S} (b : bool) (m : M S unit) : M S unit :=
  if b then m else ret tt.

#[export] Instance M_ret {S} : MRet (M S) := @ret S.
#[export] Instance M_bind {S} : MBind (M S) := fun A B k m => bind m k.

(** [for b in l: a = f(a, b)], left on the first exception. *)
Fixpoint foldM {S A B} (f : A -> B -> M S A) (a : A) (l : list B) : M S A :=
  match l with
  | [] => ret a
  | b :: l' => bind (f a b) (fun a' => foldM f a' l')
  end.

(** [try: m except Exception as e: h(e)] *)
Definition try_except {S A} (m : M S A) (h : exn -> M S A) : M S A :=
  fun s => match m s with
           | (Returns a, s') => (Returns a, s')
           | (Raises e, s') => h e s'
           end.

(** Running a block on one component of a larger state. *)
Definition zoom {S T A} (proj : S -> T) (inj : T -> S -> S) (m : M T A) : M S A :=
  fun s => let '(o, t') := m (proj s) in (o, inj t' s).

(** [x or y] and truth value testing on an optional str ([None] is falsy, so
    is the empty string). *)
Definition truthy (x : option string) : bool :=
  match x with
  | Some s => negb (bool_decide (s = ""))
  | None => false
  end.
Definition or_ (x y : option string) : option string :=
  if truthy x then x else y.

(** A dict with str keys whose iteration order matters: the items in
    insertion order, each key once. *)
Definition dict (V : Type) : Type := list (string * V).

Fixpoint dict_get {V} (k : string) (d : dict V) : option V :=
  match d with
  | [] => None
  | (k', v) :: d' => if bool_decide (k = k') then Some v else dict_get k d'
  end.

(** [k in d] *)
Definition dict_contains {V} (k : string) (d : dict V) : bool :=
  match dict_get k d with Some _ => true | None => false end.

(** [d[k] = v] for a key that is not in [d] yet. *)
Definition dict_add {V} (k : string) (v : V) (d : dict V) : dict V := d ++ [(k, v)].

(** In-place update of the object stored under [k]. *)
Fixpoint dict_alter {V} (f : V -> V) (k : string) (d : dict V) : dict V :=
  match d with
  | [] => []
  | (k', v) :: d' =>
      if bool_decide (k = k') then (k', f v) :: d' else (k', v) :: dict_alter f k d'
  end.

(** [sum(l)] on a list of ints. *)
Definition sum (l : list Z) : Z := fold_left Z.add l 0.

(** [len(l)] as a Python int. *)
Definition len {A} (l : list A) : Z := Z.of_nat (length l).

(** [l.append(x)] *)
Definition append {A} (x : A) (l : list A) : list A := l ++ [x].

(** [l.pop(0)]: removes the first element, [IndexError] on an empty list. *)
Definition pop0 {A} (l : list A) : outcome (list A) :=
  match l with
  | [] => Raises IndexError
  | _ :: l' => Returns l'
  end.

(** *** Correctly rounded [int / int] *)

(** Nearest integer to [n / d] for [0 <= n], [0 < d], ties to even. *)
Definition rne_div (n d : Z) : Z :=
  let q := n / d in
  let r := n mod d in
  if 2 * r <? d then q
  else if d <? 2 * r then q + 1
  else if Z.even q then q else q + 1.

(** [floor (log2 (n / d))] for [0 < n], [0 < d]. *)
Definition floor_log2_ratio (n d : Z) : Z :=
  let e0 := Z.log2 n - Z.log2 d in
  if n * 2 ^ Z.max 0 (- e0) <? d * 2 ^ Z.max 0 e0 then e0 - 1 else e0.

(** Binary64: 53 bits of precision, least exponent of a subnormal unit
    2^-1074, overflow threshold 2^1024. *)
Definition DBL_MANT_DIG : Z := 53.
Definition DBL_MIN_UNIT_EXP : Z := -1074.
Definition DBL_MAX_EXP : Z := 1024.

(** The double nearest to [n / d] ([0 < n], [0 < d]) as mantissa and
    exponent: its value is [m * 2^s]. *)
Definition round_binary64 (n d : Z) : Z * Z :=
  let e := floor_log2_ratio n d in
  let s := Z.max (e - (DBL_MANT_DIG - 1)) DBL_MIN_UNIT_EXP in
  (rne_div (n * 2 ^ Z.max 0 (- s)) (d * 2 ^ Z.max 0 s), s).

(** [m * 2^s] as a rational in lowest terms. *)
Definition dyadic (m s : Z) : Q :=
  Qred (if 0 <=? s then inject_Z (m * 2 ^ s) else Qmake m (Z.to_pos (2 ^ (- s)))).

(** Does [m * 2^s] reach 2^1024? *)
Definition overflows (m s : Z) : bool :=
  2 ^ (DBL_MAX_EXP - DBL_MIN_UNIT_EXP) <=? m * 2 ^ (s - DBL_MIN_UNIT_EXP).

(** [a / b] on two ints (true division). *)
Definition truediv (a b : Z) : outcome Q :=
  if b =? 0 then Raises ZeroDivisionError
  else if a =? 0 then Returns 0%Q
  else
    let '(m, s) := round_binary64 (Z.abs a) (Z.abs b) in
    if overflows m s then Raises OverflowError
    else Returns (dyadic (Z.sgn a * Z.sgn b * m) s).

(** A number held in a region dict: the int literal [0] of a new region or a
    float computed by [truediv]. *)
Inductive num :=
| Int (z : Z)
| Float (q : Q).

Definition num_val (x : num) : Q :=
  match x with
  | Int z => inject_Z z
  | Float q => q
  end.

(** [x > y]; Python compares an int and a float by value. *)
Definition gt (x y : num) : bool := negb (Qle_bool (num_val x) (num_val y)).

End Py.

Import Py.

(** ** The happiness tracker ([class HappinessTracker]) *)

Module Tracker.

Definition SHORT_TERM_WINDOW : Z := 10.
Definition LONG_TERM_WINDOW : Z := 100.
Definition GRAPH_HISTORY_LENGTH : Z := 50.

(** The dict stored under [self.regions[region]].  The three lists are the
    list objects themselves: they are created with the region and the dict
    never rebinds these keys, so each list object is identified by its
    region and its key. *)
Record region_data := {
  short_term_scores : list Z;
  long_term_scores : list Z;
  short_term_avg : num;
  long_term_avg : num;
  was_above : option bool;
  state : string;
  history : list num
}.

Definition set_short_term_scores (v : list Z) (d : region_data) :=
  {| short_term_scores := v; long_term_scores := long_term_scores d;
     short_term_avg := short_term_avg d; long_term_avg := long_term_avg d;
     was_above := was_above d; state := state d; history := history d |}.
Definition set_long_term_scores (v : list Z) (d : region_data) :=
  {| short_term_scores := short_term_scores d; long_term_scores := v;
     short_term_avg := short_term_avg d; long_term_avg := long_term_avg d;
     was_above := was_above d; state := state d; history := history d |}.
Definition set_short_term_avg (v : num) (d : region_data) :=
  {| short_term_scores := short_term_scores d; long_term_scores := long_term_scores d;
     short_term_avg := v; long_term_avg := long_term_avg d;
     was_above := was_above d; state := state d; history := history d |}.
Definition set_long_term_avg (v : num) (d : region_data) :=
  {| short_term_scores := short_term_scores d; long_term_scores := long_term_scores d;
     short_term_avg := short_term_avg d; long_term_avg := v;
     was_above := was_above d; state := state d; history := history d |}.
Definition set_was_above (v : option bool) (d : region_data) :=
  {| short_term_scores := short_term_scores d; long_term_scores := long_term_scores d;
     short_term_avg := short_term_avg d; long_term_avg := long_term_avg d;
     was_above := v; state := state d; history := history d |}.
Definition set_state (v : string) (d : region_data) :=
  {| short_term_scores := short_term_scores d; long_term_scores := long_term_scores d;
     short_term_avg := short_term_avg d; long_term_avg := long_term_avg d;
     was_above := was_above d; state := v; history := history d |}.
Definition set_history (v : list num) (d : region_data) :=
  {| short_term_scores := short_term_scores d; long_term_scores := long_term_scores d;
     short_term_avg := short_term_avg d; long_term_avg := long_term_avg d;
     was_above := was_above d; state := state d; history := v |}.

(** The dict literal of [_get_or_create_region]. *)
Definition new_region : region_data :=
  {| short_term_scores := []; long_term_scores := [];
     short_term_avg := Int 0; long_term_avg := Int 0;
     was_above := None; state := "MAINTAIN_NEUTRAL"; history := [] |}.

(** [self]: the only attribute is [self.regions]. *)
Record HappinessTracker := { regions : gmap string region_data }.

(** [HappinessTracker()] *)
Definition __init__ : HappinessTracker := {| regions := ∅ |}.

(** [_get_or_create_region]: the returned dict object is named by its key. *)
Definition _get_or_create_region (region : string) : M HappinessTracker string :=
  self ← get;
  when (bool_decide (regions self !! region = None))
       (put {| regions := <[region := new_region]> (regions self) |});;
  mret region.

(** Runs a block that mutates the dict [self.regions[region]] in place. *)
Definition on_region {A} (region : string) (m : M region_data A)
  : M HappinessTracker A :=
  fun self =>
    match regions self !! region with
    | None => (Raises KeyError, self)
    | Some d =>
        let '(o, d') := m d in
        (o, {| regions := <[region := d']> (regions self) |})
    end.

(** [_update_state(region_data)] *)
Definition _update_state : M region_data unit :=
  region_data ← get;
  let sma := short_term_avg region_data in
  let lma := long_term_avg region_data in
  let is_above := gt sma lma in
  if len (long_term_scores region_data) <? LONG_TERM_WINDOW then
    modify (set_state "PRIMING")
  else
    match was_above region_data with
    | None => modify (set_was_above (Some is_above))
    | Some prev =>
        (if is_above && negb prev then modify (set_state "TRENDING_UP")
         else if negb is_above && prev then modify (set_state "TRENDING_DOWN")
         else if is_above then modify (set_state "MAINTAIN_GOOD")
         else modify (set_state "MAINTAIN_POOR"));;
        modify (set_was_above (Some is_above))
    end.

(** The body of [add_sentiment_score] once [region_data] is bound. *)
Definition add_score (score : Z) : M region_data unit :=
  (* Update short-term *)
  modify (fun d => set_short_term_scores (append score (short_term_scores d)) d);;
  d ← get;
  when (SHORT_TERM_WINDOW <? len (short_term_scores d))
       (l ← lift (pop0 (short_term_scores d)); modify (set_short_term_scores l));;
  (* Update long-term *)
  modify (fun d => set_long_term_scores (append score (long_term_scores d)) d);;
  d ← get;
  when (LONG_TERM_WINDOW <? len (long_term_scores d))
       (l ← lift (pop0 (long_term_scores d)); modify (set_long_term_scores l));;
  (* Recalculate averages *)
  d ← get;
  when (negb (bool_decide (short_term_scores d = [])))
       (a ← lift (truediv (sum (short_term_scores d)) (len (short_term_scores d)));
        modify (set_short_term_avg (Float a)));;
  d ← get;
  when (negb (bool_decide (long_term_scores d = [])))
       (a ← lift (truediv (sum (long_term_scores d)) (len (long_term_scores d)));
        modify (set_long_term_avg (Float a)));;
  (* Update the long-term state label *)
  _update_state;;
  (* Save data point for the graph *)
  modify (fun d => set_history (append (short_term_avg d) (history d)) d);;
  d ← get;
  when (GRAPH_HISTORY_LENGTH <? len (history d))
       (l ← lift (pop0 (history d)); modify (set_history l)).

(** [add_sentiment_score(region, score)] *)
Definition add_sentiment_score (region : string) (score : Z)
  : M HappinessTracker unit :=
  region_data ← _get_or_create_region region;
  on_region region_data (add_score score).

(** A reference to one of the list objects owned by the tracker. *)
Inductive scores_ref :=
| ShortTermScoresOf (region : string)
| LongTermScoresOf (region : string).
Inductive history_ref :=
| HistoryOf (region : string).

(** The dict returned by [dict.copy()]: a new dict whose values are the
    values of the original, that is the same numbers and strings and the
    same three list objects. *)
Record snapshot := {
  snap_short_term_scores : scores_ref;
  snap_long_term_scores : scores_ref;
  snap_short_term_avg : num;
  snap_long_term_avg : num;
  snap_was_above : option bool;
  snap_state : string;
  snap_history : history_ref
}.

(** [self.regions[region].copy()] *)
Definition copy (region : string) : M HappinessTracker snapshot :=
  self ← get;
  match regions self !! region with
  | None => raise KeyError
  | Some d =>
      mret {| snap_short_term_scores := ShortTermScoresOf region;
              snap_long_term_scores := LongTermScoresOf region;
              snap_short_term_avg := short_term_avg d;
              snap_long_term_avg := long_term_avg d;
              snap_was_above := was_above d;
              snap_state := state d;
              snap_history := HistoryOf region |}
  end.

(** [get_region_snapshot(region)] *)
Definition get_region_snapshot (region : string) : M HappinessTracker snapshot :=
  region_data ← _get_or_create_region region;
  copy region_data.

(** Reading a list through a reference, in a given state of the tracker. *)
Definition deref_scores (self : HappinessTracker) (r : scores_ref) : list Z :=
  match r with
  | ShortTermScoresOf region =>
      default [] (short_term_scores <$> regions self !! region)
  | LongTermScoresOf region =>
      default [] (long_term_scores <$> regions self !! region)
  end.
Definition deref_history (self : HappinessTracker) (r : history_ref) : list num :=
  match r with
  | HistoryOf region => default [] (history <$> regions self !! region)
  end.

(** What a holder of the snapshot reads from it while the tracker is in
    state [self]: every field of the copied dict, lists by content. *)
Definition read_snapshot (self : HappinessTracker) (s : snapshot) : region_data :=
  {| short_term_scores := deref_scores self (snap_short_term_scores s);
     long_term_scores := deref_scores self (snap_long_term_scores s);
     short_term_avg := snap_short_term_avg s;
     long_term_avg := snap_long_term_avg s;
     was_above := snap_was_above s;
     state := snap_state s;
     history := deref_history self (snap_history s) |}.

(** Feeding a sequence of scores to one region, stopping at the first call
    that raises. *)
Fixpoint add_scores (region : string) (scores : list Z) : M HappinessTracker unit :=
  match scores with
  | [] => mret tt
  | score :: rest => add_sentiment_score region score;; add_scores region rest
  end.

End Tracker.

Import Tracker.


(** ** The agent loop ([main]) *)

Module Agent.

(** The JSON object returned by the classifier, a dict of strings. *)
Definition analysis : Type := dict string.

(** An event of the batch.  The loop reads four keys; the telemetry source
    puts strings under them.
    - [ev_region] is [event.get('region')]: [None] when the key is absent
      or null;
    - [ev_event_type] is [event['event_type']]: [None] when the key is
      absent, which makes the subscript raise [KeyError];
    - [ev_text], [ev_log] are [event.get('text')], [event.get('log')];
    - [ev_fields] are the other keys, carried along untouched;
    - [ev_analysis] is [event['analysis']], written by the first loop. *)
Record event := {
  ev_region : option string;
  ev_event_type : option string;
  ev_text : option string;
  ev_log : option string;
  ev_fields : dict string;
  ev_analysis : option analysis
}.

(** [event['analysis'] = analysis] *)
Definition set_analysis (a : analysis) (e : event) : event :=
  {| ev_region := ev_region e; ev_event_type := ev_event_type e;
     ev_text := ev_text e; ev_log := ev_log e; ev_fields := ev_fields e;
     ev_analysis := Some a |}.

(** The value stored under [grouped_data[region]]. *)
Record buckets := {
  network_metrics : list event;
  analyzed_posts : list event
}.

Definition add_network_metric (e : event) (b : buckets) : buckets :=
  {| network_metrics := append e (network_metrics b);
     analyzed_posts := analyzed_posts b |}.
Definition add_analyzed_post (e : event) (b : buckets) : buckets :=
  {| network_metrics := network_metrics b;
     analyzed_posts := append e (analyzed_posts b) |}.

(** [final_bundle] *)
Record final_bundle := {
  happiness_state : snapshot;
  bundle_network_metrics : list event;
  recent_posts : list event
}.

(** The two calls to the language model.  Their answers depend on the
    outside world, which every call may change.
    - [get_event_analysis text]: [None] when the call failed (the function
      returns [None]); the dict it returns may be empty.
    - [get_proactive_decision region_name data_bundle]: [None] when the
      function returns [None] or a falsy value. *)
Class Services := {
  world : Type;
  decision : Type;
  get_event_analysis : string -> world -> option analysis * world;
  get_proactive_decision : string -> final_bundle -> world -> option decision * world
}.

Section Loop.
Context `{Services}.

(** [full_report] *)
Record full_report := {
  report_region : string;
  report_decision : decision;
  data_bundle : final_bundle
}.

(** What one pass of the [while] loop works on: the tracker, the outside
    world and the reports handed to [send_report_to_server]. *)
Record cycle_state := {
  tracker : HappinessTracker;
  env : world;
  sent : list full_report
}.

Definition on_tracker {A} : M HappinessTracker A -> M cycle_state A :=
  zoom tracker (fun t s => {| tracker := t; env := env s; sent := sent s |}).

Definition call {A} (f : world -> A * world) : M cycle_state A :=
  fun s => let '(a, w) := f (env s) in
           (Returns a, {| tracker := tracker s; env := w; sent := sent s |}).

Definition send_report_to_server (r : full_report) : M cycle_state unit :=
  modify (fun s => {| tracker := tracker s; env := env s; sent := append r (sent s) |}).

(** [score_map.get(label, 0)] *)
Definition score_map_get (label : string) : Z :=
  if bool_decide (label = "positive") then 1
  else if bool_decide (label = "negative") then -1
  else if bool_decide (label = "neutral") then 0
  else 0.

Definition empty_buckets : buckets :=
  {| network_metrics := []; analyzed_posts := [] |}.

(** The body of LOOP 1 for one event; [continue] is an early [mret]. *)
Definition perceive (grouped_data : dict buckets) (event : event)
  : M cycle_state (dict buckets) :=
  let region := ev_region event in
  if negb (truthy region) then mret grouped_data
  else
    let region := default "" region in
    let grouped_data :=
      if negb (dict_contains region grouped_data)
      then dict_add region empty_buckets grouped_data
      else grouped_data in
    match ev_event_type event with
    | None => raise KeyError
    | Some etype =>
        if bool_decide (etype = "network_metric") then
          mret (dict_alter (add_network_metric event) region grouped_data)
        else if bool_decide (etype = "social_media_post")
                || bool_decide (etype = "support_interaction") then
          let text := or_ (ev_text event) (ev_log event) in
          if negb (truthy text) then mret grouped_data
          else
            analysis ← call (get_event_analysis (default "" text));
            match analysis with
            | Some ((_ :: _) as analysis) =>
                let score :=
                  score_map_get (default "neutral" (dict_get "sentiment" analysis)) in
                on_tracker (add_sentiment_score region score);;
                let event := set_analysis analysis event in
                mret (dict_alter (add_analyzed_post event) region grouped_data)
            | _ => mret grouped_data
            end
        else mret grouped_data
    end.

(** LOOP 1 *)
Definition perceive_and_analyze (events : list event) : M cycle_state (dict buckets) :=
  foldM perceive [] events.

(** The body of LOOP 2 for one item; [decided] collects the regions that
    reach the decision step, with the bundle built for them. *)
Definition decide_region (decided : dict final_bundle) (item : string * buckets)
  : M cycle_state (dict final_bundle) :=
  let '(region, data) := item in
  if bool_decide (region = "global")
     || (bool_decide (network_metrics data = [])
         && bool_decide (analyzed_posts data = [])) then mret decided
  else
    happiness_snapshot ← on_tracker (get_region_snapshot region);
    let final_bundle :=
      {| happiness_state := happiness_snapshot;
         bundle_network_metrics := network_metrics data;
         recent_posts := analyzed_posts data |} in
    decision ← call (get_proactive_decision region final_bundle);
    match decision with
    | Some decision =>
        send_report_to_server
          {| report_region := region; report_decision := decision;
             data_bundle := final_bundle |}
    | None => mret tt
    end;;
    mret (append (region, final_bundle) decided).

(** LOOP 2 *)
Definition decide_and_act (grouped_data : dict buckets) : M cycle_state (dict final_bundle) :=
  foldM decide_region [] grouped_data.

(** One pass over a non-empty batch: the per-region output is the list of
    regions that were decided on. *)
Definition cycle (events : list event) : M cycle_state (dict final_bundle) :=
  grouped_data ← perceive_and_analyze events;
  decide_and_act grouped_data.

End Loop.

End Agent.

(** ** The report sink ([reporter_with_storage.py]) *)

Module ReportSink.

Definition MAX_HISTORY : Z := 200.

(** [deque(maxlen=n).append(x)]: the new item goes to the right end and the
    deque is trimmed from the left when it got longer than [maxlen]. *)
Definition deque_append {A} (maxlen : Z) (x : A) (dq : list A) : list A :=
  let dq' := dq ++ [x] in
  if maxlen <? len dq' then tl dq' else dq'.

(** Library functions the handler calls: [int] on a header value,
    [bytes.decode('utf-8')] and [json.loads]; [None] when they raise. *)
Class Codec := {
  json : Type;
  int_of_str : string -> option Z;
  utf8_decode : list Byte.byte -> option string;
  json_loads : string -> option json
}.

Section Handler.
Context `{Codec}.

(** [report_with_timestamp] *)
Record report := {
  received_at : string;
  data : json
}.

(** [data_store]; the lock is held for the whole of each access and the
    [TCPServer] handles one request at a time. *)
Record data_store := { reports : list report }.

Definition data_store_init : data_store := {| reports := [] |}.

(** The parts of a request the handlers read: the path, the
    [Content-Length] header when present, and the bytes that [rfile] can
    deliver. *)
Record request := {
  path : string;
  content_length : option string;
  rfile : list Byte.byte
}.

Inductive message :=
| ReportReceived
| Error (e : exn)
| Reports (count : Z) (l : list report)
| NotFound.

Record response := { status_code : Z; body : message }.

Definition _send_response (status_code : Z) (body : message) : response :=
  {| status_code := status_code; body := body |}.

(** [int(self.headers['Content-Length'])] *)
Definition int_header (h : option string) : outcome Z :=
  match h with
  | None => Raises TypeError
  | Some s => match int_of_str s with
              | Some n => Returns n
              | None => Raises ValueError
              end
  end.

(** [rfile.read(n)]: at most [n] bytes, everything for a negative [n]. *)
Definition read (n : Z) (rfile : list Byte.byte) : list Byte.byte :=
  if n <? 0 then rfile else take (Z.to_nat n) rfile.

Definition decode (b : list Byte.byte) : outcome string :=
  match utf8_decode b with
  | Some s => Returns s
  | None => Raises UnicodeDecodeError
  end.

Definition loads (s : string) : outcome json :=
  match json_loads s with
  | Some j => Returns j
  | None => Raises JSONDecodeError
  end.

(** [do_POST]; [now] is [datetime.now().isoformat()].  Writing to the
    console is not modelled. *)
Definition do_POST (now : string) (self : request) : M data_store response :=
  try_except
    (content_length ← lift (int_header (content_length self));
     let post_data_bytes := read content_length (rfile self) in
     s ← lift (decode post_data_bytes);
     post_data_json ← lift (loads s);
     let report_with_timestamp := {| received_at := now; data := post_data_json |} in
     modify (fun store =>
               {| reports := deque_append MAX_HISTORY report_with_timestamp (reports store) |});;
     mret (_send_response 200 ReportReceived))
    (fun e => mret (_send_response 500 (Error e))).



End Handler.

End ReportSink.

(** * Properties *)

(** ** Properties of the tracker *)

Section TrackerFacts.

(** What the pattern "append, then pop(0) if longer than the window" leaves
    in a list. *)
Definition fifo_push {A} (cap : Z) (x : A) (l : list A) : list A :=
  if cap <? len (l ++ [x]) then tl (l ++ [x]) else l ++ [x].

Lemma len_app1 {A} (l : list A) (x : A) : len (l ++ [x]) = len l + 1.
Proof. unfold len. rewrite length_app. simpl. lia. Qed.

Lemma fifo_push_len {A} cap (x : A) l :
  0 < cap -> len l <= cap -> len (fifo_push cap x l) <= cap.
Proof.
  intros Hc Hl. unfold fifo_push.
  destruct (Z.ltb_spec cap (len (l ++ [x]))) as [H|H]; [|exact H].
  rewrite len_app1 in H.
  destruct l as [|y l]; unfold len in *; simpl in *; [lia|].
  rewrite length_app. simpl. lia.
Qed.

Lemma fifo_push_nonempty {A} cap (x : A) l : 0 < cap -> fifo_push cap x l <> [].
Proof.
  intros Hc. unfold fifo_push.
  destruct l as [|y l]; simpl.
  - unfold len. simpl. destruct (Z.ltb_spec cap (Z.of_nat 1)); [lia|easy].
  - destruct (_ <? _); [destruct l|]; easy.
Qed.

Lemma fifo_push_full {A} cap (x : A) l :
  0 < cap -> len l = cap -> fifo_push cap x l = tl l ++ [x].
Proof.
  intros Hc Hl. unfold fifo_push. rewrite len_app1.
  destruct (Z.ltb_spec cap (len l + 1)); [|lia].
  destruct l; [unfold len in Hl; simpl in Hl; lia|reflexivity].
Qed.

Lemma fifo_push_room {A} cap (x : A) l :
  len l < cap -> fifo_push cap x l = l ++ [x].
Proof.
  intros Hl. unfold fifo_push. rewrite len_app1.
  destruct (Z.ltb_spec cap (len l + 1)); [lia|reflexivity].
Qed.

(** The three in-place window updates of [add_sentiment_score] are
    [fifo_push]; [pop(0)] is only reached on a non-empty list. *)
Lemma pop0_app1 {A} (l : list A) (x : A) : pop0 (l ++ [x]) = Returns (tl (l ++ [x])).
Proof. destruct l; reflexivity. Qed.

(** [_update_state] never raises. *)
Lemma _update_state_returns d : (_update_state d).1 = Returns tt.
Proof.
  unfold _update_state, mbind, M_bind, bind, get, modify. simpl.
  destruct (_ <? _); [reflexivity|].
  destruct (was_above d) as [prev|]; [|reflexivity].
  destruct (gt _ _), prev; reflexivity.
Qed.

(** The region dict after the two window updates. *)
Definition windows_pushed (score : Z) (d : region_data) : region_data :=
  set_long_term_scores (fifo_push LONG_TERM_WINDOW score (long_term_scores d))
    (set_short_term_scores (fifo_push SHORT_TERM_WINDOW score (short_term_scores d)) d).

(** The region dict after a call that went through. *)
Definition score_added (score : Z) (a b : Q) (d : region_data) : region_data :=
  let d3 := (_update_state
               (set_long_term_avg (Float b)
                  (set_short_term_avg (Float a) (windows_pushed score d)))).2 in
  set_history (fifo_push GRAPH_HISTORY_LENGTH (short_term_avg d3) (history d3)) d3.

Definition mean (l : list Z) : outcome Q := truediv (sum l) (len l).

Lemma add_score_run score d :
  add_score score d =
    let d1 := windows_pushed score d in
    match mean (short_term_scores d1) with
    | Raises e => (Raises e, d1)
    | Returns a =>
        match mean (long_term_scores d1) with
        | Raises e => (Raises e, set_short_term_avg (Float a) d1)
        | Returns b => (Returns tt, score_added score a b d)
        end
    end.
Proof.
  assert (Hs := fifo_push_nonempty SHORT_TERM_WINDOW score (short_term_scores d) eq_refl).
  assert (Hl := fifo_push_nonempty LONG_TERM_WINDOW score (long_term_scores d) eq_refl).
  unfold add_score, score_added, windows_pushed, mean in *.
  unfold mbind, M_bind, bind, get, modify, when, lift, ret, append. simpl.
  unfold fifo_push in *.
  destruct (SHORT_TERM_WINDOW <? len (short_term_scores d ++ [score])); simpl;
    rewrite ?pop0_app1; simpl;
    (destruct (LONG_TERM_WINDOW <? len (long_term_scores d ++ [score])); simpl;
     rewrite ?pop0_app1; simpl;
     (rewrite bool_decide_eq_false_2 by assumption; simpl;
      destruct (truediv _ _) as [a|e]; simpl; [|reflexivity];
      rewrite bool_decide_eq_false_2 by assumption; simpl;
      destruct (truediv _ _) as [b|e]; simpl; [|reflexivity])).
  all: unfold set_long_term_avg, set_short_term_avg, set_long_term_scores,
         set_short_term_scores; simpl.
  all: match goal with
       | |- context [_update_state ?x] =>
           pose proof (_update_state_returns x) as Hu;
           destruct (_update_state x) as [o d3]; simpl in Hu; subst o; simpl
       end.
  all: destruct (GRAPH_HISTORY_LENGTH <? len (history d3 ++ [short_term_avg d3]));
       simpl; rewrite ?pop0_app1; reflexivity.
Qed.

(** A call on the tracker is the same block run on the region's dict, the
    dict of a new region when the key is absent. *)
Lemma add_sentiment_score_run region score self :
  add_sentiment_score region score self =
    let '(o, d') := add_score score (default new_region (regions self !! region)) in
    (o, {| regions := <[region := d']> (regions self) |}).
Proof.
  unfold add_sentiment_score, _get_or_create_region, on_region.
  unfold mbind, M_bind, bind, get, put, when, mret, M_ret, ret. simpl.
  destruct (regions self !! region) as [d|] eqn:Hd; simpl.
  - rewrite Hd. reflexivity.
  - rewrite lookup_insert_eq.
    destruct (add_score score new_region) as [o d']. rewrite insert_insert_eq.
    reflexivity.
Qed.

(** *** When [int / int] fits a double *)

Lemma rne_div_le n d k : 0 < d -> n <= d * k -> rne_div n d <= k.
Proof.
  intros Hd Hn. unfold rne_div.
  assert (Hq : n / d <= k).
  { apply Z.div_le_upper_bound; assumption. }
  pose proof (Z.div_mod n d ltac:(lia)) as Hdm.
  pose proof (Z.mod_pos_bound n d Hd) as Hr.
  destruct (Z.ltb_spec (2 * (n mod d)) d) as [H1|H1]; [exact Hq|].
  assert (n / d < k) by nia.
  destruct (d <? 2 * (n mod d)); [lia|].
  destruct (Z.even (n / d)); lia.
Qed.

Lemma floor_log2_ratio_le n d k :
  0 < n -> 0 < d -> 0 <= k -> n <= d * 2 ^ k -> floor_log2_ratio n d <= k.
Proof.
  intros Hn Hd Hk Hle. unfold floor_log2_ratio.
  assert (Z.log2 n <= Z.log2 d + k).
  { rewrite Z.add_comm, <- Z.log2_mul_pow2 by lia. apply Z.log2_le_mono. exact Hle. }
  destruct (_ <? _); lia.
Qed.

(** The exponent below which every quotient fits: |a / b| <= 2^1023. *)
Definition SAFE_EXP : Z := DBL_MAX_EXP - 1.

Lemma truediv_returns a b :
  b <> 0 -> Z.abs a <= Z.abs b * 2 ^ SAFE_EXP -> exists q, truediv a b = Returns q.
Proof.
  intros Hb Ha. unfold truediv.
  destruct (Z.eqb_spec b 0) as [|_]; [contradiction|].
  destruct (Z.eqb_spec a 0) as [|Ha0]; [eexists; reflexivity|].
  unfold round_binary64.
  set (n := Z.abs a) in *. set (d := Z.abs b) in *.
  assert (Hn : 0 < n) by (subst n; lia).
  assert (Hd : 0 < d) by (subst d; lia).
  pose proof (floor_log2_ratio_le n d SAFE_EXP Hn Hd ltac:(unfold SAFE_EXP, DBL_MAX_EXP; lia) Ha) as He.
  set (e := floor_log2_ratio n d) in *.
  set (s := Z.max (e - (DBL_MANT_DIG - 1)) DBL_MIN_UNIT_EXP).
  assert (Hs : DBL_MIN_UNIT_EXP <= s <= SAFE_EXP).
  { subst s. unfold DBL_MANT_DIG, DBL_MIN_UNIT_EXP, SAFE_EXP, DBL_MAX_EXP in *. lia. }
  set (m := rne_div _ _).
  assert (Hm : m <= 2 ^ (SAFE_EXP - s)).
  { subst m. apply rne_div_le.
    - apply Z.mul_pos_pos; [exact Hd|]. apply Z.pow_pos_nonneg; lia.
    - destruct (Z.le_ge_cases 0 s) as [H0|H0].
      + rewrite (Z.max_l 0 (- s)), (Z.max_r 0 s) by lia.
        rewrite Z.pow_0_r, Z.mul_1_r, <- Z.mul_assoc, <- Z.pow_add_r by lia.
        replace (s + (SAFE_EXP - s)) with SAFE_EXP by lia. exact Ha.
      + rewrite (Z.max_r 0 (- s)), (Z.max_l 0 s) by lia.
        rewrite Z.pow_0_r, Z.mul_1_r.
        replace (SAFE_EXP - s) with (SAFE_EXP + - s) by lia.
        rewrite Z.pow_add_r, Z.mul_assoc by (unfold SAFE_EXP, DBL_MAX_EXP; lia).
        apply Z.mul_le_mono_nonneg_r; [apply Z.pow_nonneg; lia|exact Ha]. }
  assert (Hov : overflows m s = false).
  { unfold overflows. apply Z.leb_gt.
    apply Z.le_lt_trans with (2 ^ (SAFE_EXP - s) * 2 ^ (s - DBL_MIN_UNIT_EXP)).
    - apply Z.mul_le_mono_nonneg_r; [apply Z.pow_nonneg; lia|exact Hm].
    - rewrite <- Z.pow_add_r by lia.
      apply Z.pow_lt_mono_r; unfold SAFE_EXP, DBL_MAX_EXP, DBL_MIN_UNIT_EXP in *; lia. }
  rewrite Hov. eexists; reflexivity.
Qed.

(** An int that can sit in a window without making a mean overflow. *)
Definition float_safe (z : Z) : Prop := Z.abs z <= 2 ^ SAFE_EXP.

Lemma sum_acc l acc : fold_left Z.add l acc = acc + sum l.
Proof.
  unfold sum. revert acc. induction l as [|z l IH]; intros acc; simpl; [lia|].
  rewrite (IH (acc + z)), (IH (0 + z)). lia.
Qed.

Lemma sum_cons z l : sum (z :: l) = z + sum l.
Proof. unfold sum at 1. simpl. apply sum_acc. Qed.

Lemma sum_safe l : Forall float_safe l -> Z.abs (sum l) <= len l * 2 ^ SAFE_EXP.
Proof.
  induction 1 as [|z l Hz _ IH].
  - unfold sum, len. simpl. lia.
  - rewrite sum_cons. unfold len in *. simpl length. unfold float_safe in Hz. lia.
Qed.

Lemma mean_returns l :
  l <> [] -> Forall float_safe l -> exists q, mean l = Returns q.
Proof.
  intros Hne Hl. unfold mean. apply truediv_returns.
  - destruct l; [contradiction|]. unfold len. simpl. lia.
  - rewrite (Z.abs_eq (len l)) by (unfold len; lia). apply sum_safe. exact Hl.
Qed.

Lemma Forall_fifo_push {A} (P : A -> Prop) cap x l :
  Forall P l -> P x -> Forall P (fifo_push cap x l).
Proof.
  intros Hl Hx. assert (H : Forall P (l ++ [x])).
  { apply Forall_app. split; [exact Hl|]. constructor; [exact Hx|constructor]. }
  unfold fifo_push. destruct (_ <? _); [|exact H].
  destruct (l ++ [x]); [constructor|]. simpl. inversion H; assumption.
Qed.

(** Every score in the two windows is [float_safe]. *)
Definition scores_safe (d : region_data) : Prop :=
  Forall float_safe (short_term_scores d) /\ Forall float_safe (long_term_scores d).

(** The three window bounds. *)
Definition windows_bounded (d : region_data) : Prop :=
  len (short_term_scores d) <= SHORT_TERM_WINDOW /\
  len (long_term_scores d) <= LONG_TERM_WINDOW /\
  len (history d) <= GRAPH_HISTORY_LENGTH.

Lemma _update_state_frame d :
  let d' := (_update_state d).2 in
  short_term_scores d' = short_term_scores d /\
  long_term_scores d' = long_term_scores d /\
  short_term_avg d' = short_term_avg d /\
  long_term_avg d' = long_term_avg d /\
  history d' = history d.
Proof.
  unfold _update_state, mbind, M_bind, bind, get, modify. simpl.
  destruct (_ <? _); [simpl; tauto|].
  destruct (was_above d) as [prev|]; [|simpl; tauto].
  destruct (gt _ _), prev; simpl; tauto.
Qed.

(** With safe scores the call goes through, and the resulting dict is the
    one [score_added] describes. *)
Lemma add_score_returns score d :
  float_safe score -> scores_safe d ->
  exists a b,
    mean (fifo_push SHORT_TERM_WINDOW score (short_term_scores d)) = Returns a /\
    mean (fifo_push LONG_TERM_WINDOW score (long_term_scores d)) = Returns b /\
    add_score score d = (Returns tt, score_added score a b d).
Proof.
  intros Hz [Hs Hl].
  destruct (mean_returns (fifo_push SHORT_TERM_WINDOW score (short_term_scores d)))
    as [a Ha]; [apply fifo_push_nonempty; reflexivity|apply Forall_fifo_push; assumption|].
  destruct (mean_returns (fifo_push LONG_TERM_WINDOW score (long_term_scores d)))
    as [b Hb]; [apply fifo_push_nonempty; reflexivity|apply Forall_fifo_push; assumption|].
  exists a, b. split; [exact Ha|]. split; [exact Hb|].
  rewrite add_score_run. simpl. rewrite Ha, Hb. reflexivity.
Qed.

(** The dict that [_get_or_create_region] hands out for [region]. *)
Definition region_of (self : HappinessTracker) (region : string) : region_data :=
  default new_region (regions self !! region).

Lemma add_sentiment_score_returns region score self :
  float_safe score -> scores_safe (region_of self region) ->
  exists a b,
    mean (fifo_push SHORT_TERM_WINDOW score (short_term_scores (region_of self region)))
      = Returns a /\
    mean (fifo_push LONG_TERM_WINDOW score (long_term_scores (region_of self region)))
      = Returns b /\
    add_sentiment_score region score self =
      (Returns tt,
       {| regions := <[region := score_added score a b (region_of self region)]>
                       (regions self) |}).
Proof.
  intros Hz Hd.
  destruct (add_score_returns score _ Hz Hd) as (a & b & Ha & Hb & Hrun).
  exists a, b. split; [exact Ha|]. split; [exact Hb|].
  rewrite add_sentiment_score_run. fold (region_of self region).
  rewrite Hrun. reflexivity.
Qed.

Lemma score_added_fields score a b d :
  let d' := score_added score a b d in
  short_term_scores d' = fifo_push SHORT_TERM_WINDOW score (short_term_scores d) /\
  long_term_scores d' = fifo_push LONG_TERM_WINDOW score (long_term_scores d) /\
  short_term_avg d' = Float a /\
  long_term_avg d' = Float b /\
  history d' = fifo_push GRAPH_HISTORY_LENGTH (Float a) (history d).
Proof.
  unfold score_added.
  set (d2 := set_long_term_avg _ _).
  destruct (_update_state_frame d2) as (E1 & E2 & E3 & E4 & E5).
  simpl. rewrite E1, E2, E3, E4, E5. subst d2. simpl. tauto.
Qed.

(** The window that is full evicts its oldest element, the one that is not
    grows by one. *)
Definition fifo {A} (cap : Z) (x : A) (l : list A) : list A :=
  if len l <? cap then l ++ [x] else tl l ++ [x].

Lemma fifo_push_fifo {A} cap (x : A) l :
  0 < cap -> len l <= cap -> fifo_push cap x l = fifo cap x l.
Proof.
  intros Hc Hl. unfold fifo.
  destruct (Z.ltb_spec (len l) cap).
  - apply fifo_push_room. assumption.
  - apply fifo_push_full; lia.
Qed.

Definition tracker_bounded (self : HappinessTracker) : Prop :=
  forall region d, regions self !! region = Some d -> windows_bounded d.

Lemma new_region_bounded : windows_bounded new_region.
Proof.
  unfold windows_bounded, len, SHORT_TERM_WINDOW, LONG_TERM_WINDOW, GRAPH_HISTORY_LENGTH.
  simpl. lia.
Qed.

Lemma __init___bounded : tracker_bounded __init__.
Proof. intros region d Hd. simpl in Hd. rewrite lookup_empty in Hd. discriminate. Qed.

Lemma region_of_bounded self region :
  tracker_bounded self -> windows_bounded (region_of self region).
Proof.
  intros Hb. unfold region_of.
  destruct (regions self !! region) eqn:Hd; simpl; [eapply Hb; eassumption|].
  apply new_region_bounded.
Qed.

(** The windows after a call, whether it returned or raised. *)
Lemma add_score_windows score d :
  let '(o, d') := add_score score d in
  short_term_scores d' = fifo_push SHORT_TERM_WINDOW score (short_term_scores d) /\
  long_term_scores d' = fifo_push LONG_TERM_WINDOW score (long_term_scores d) /\
  history d' =
    match o with
    | Returns _ => fifo_push GRAPH_HISTORY_LENGTH (short_term_avg d') (history d)
    | Raises _ => history d
    end.
Proof.
  rewrite add_score_run. simpl.
  destruct (mean _) as [a|e]; [|simpl; tauto].
  destruct (mean _) as [b|e]; [|simpl; tauto].
  destruct (score_added_fields score a b d) as (E1 & E2 & E3 & _ & E5).
  rewrite E3. tauto.
Qed.

Lemma add_score_bounded score d :
  windows_bounded d -> windows_bounded (add_score score d).2.
Proof.
  intros (Hs & Hl & Hh).
  pose proof (add_score_windows score d) as Hw.
  destruct (add_score score d) as [o d']. destruct Hw as (E1 & E2 & E3). simpl.
  unfold windows_bounded. rewrite E1, E2, E3.
  split; [apply fifo_push_len; [reflexivity|assumption]|].
  split; [apply fifo_push_len; [reflexivity|assumption]|].
  destruct o; [apply fifo_push_len; [reflexivity|assumption]|assumption].
Qed.

Lemma add_sentiment_score_bounded region score self :
  tracker_bounded self -> tracker_bounded (add_sentiment_score region score self).2.
Proof.
  intros Hb. rewrite add_sentiment_score_run. fold (region_of self region).
  pose proof (add_score_bounded score _ (region_of_bounded self region Hb)) as Hd.
  destruct (add_score score (region_of self region)) as [o d']. simpl in *.
  intros r d. simpl. destruct (decide (region = r)) as [->|Hne].
  - rewrite lookup_insert_eq. intros [= <-]. exact Hd.
  - rewrite lookup_insert_ne by assumption. apply Hb.
Qed.

Lemma add_scores_bounded region scores self :
  tracker_bounded self -> tracker_bounded (add_scores region scores self).2.
Proof.
  revert self. induction scores as [|score rest IH]; intros self Hb; [exact Hb|].
  simpl. unfold mbind, M_bind, bind.
  pose proof (add_sentiment_score_bounded region score self Hb) as Hb'.
  destruct (add_sentiment_score region score self) as [[[]|e] self']; simpl in *.
  - apply IH. exact Hb'.
  - exact Hb'.
Qed.

(** C8.  Whatever scores are fed to a region, one after the other, the three
    windows of every region stay within SHORT_TERM_WINDOW (10),
    LONG_TERM_WINDOW (100) and GRAPH_HISTORY_LENGTH (50) after every call;
    and a call made in a state within these bounds leaves in each score
    window the old content with the new score at the end, minus the oldest
    element when the window was full, and does the same to the history
    with the new short-term average when it returns. *)
Theorem window_bounds_after_every_call
    (region : string) (scores : list Z) (score : Z) (self : HappinessTracker) :
  tracker_bounded self ->
  tracker_bounded (add_scores region scores self).2 /\
  let d := region_of self region in
  let '(o, self') := add_sentiment_score region score self in
  tracker_bounded self' /\
  exists d', regions self' !! region = Some d' /\
    len (short_term_scores d') <= 10 /\
    len (long_term_scores d') <= 100 /\
    len (history d') <= 50 /\
    short_term_scores d' = fifo SHORT_TERM_WINDOW score (short_term_scores d) /\
    long_term_scores d' = fifo LONG_TERM_WINDOW score (long_term_scores d) /\
    history d' =
      match o with
      | Returns _ => fifo GRAPH_HISTORY_LENGTH (short_term_avg d') (history d)
      | Raises _ => history d
      end.
Proof.
  intros Hb. split; [apply add_scores_bounded; exact Hb|].
  pose proof (add_sentiment_score_bounded region score self Hb) as Hb'.
  rewrite add_sentiment_score_run in *. fold (region_of self region) in *.
  pose proof (add_score_windows score (region_of self region)) as Hw.
  destruct (region_of_bounded self region Hb) as (Hs & Hl & Hh).
  destruct (add_score score (region_of self region)) as [o d'].
  destruct Hw as (E1 & E2 & E3). simpl in Hb'.
  split; [exact Hb'|]. exists d'.
  split; [apply lookup_insert_eq|].
  destruct (Hb' region d' (lookup_insert_eq _ _ _)) as (Bs & Bl & Bh).
  rewrite <- !fifo_push_fifo by (reflexivity || assumption).
  repeat split; assumption.
Qed.

Lemma window_bounds_after_every_call_witness :
  tracker_bounded __init__ /\
  tracker_bounded (add_scores "Dallas" (replicate 120 1) __init__).2.
Proof.
  split; [exact __init___bounded|].
  exact (proj1 (window_bounds_after_every_call "Dallas" (replicate 120 1) 1 __init__
                  __init___bounded)).
Defined.

(** *** The state label *)

Lemma fifo_push_length {A} cap (x : A) l :
  len (fifo_push cap x l) = if cap <? len l + 1 then len l else len l + 1.
Proof.
  unfold fifo_push. rewrite len_app1. destruct (_ <? _); [|apply len_app1].
  destruct l; unfold len; simpl; [reflexivity|]. rewrite length_app. simpl. lia.
Qed.

(** The label and the flag that [_update_state] leaves after a call that
    went through. *)
Lemma score_added_label score a b d :
  let d' := score_added score a b d in
  let is_above := gt (Float a) (Float b) in
  if len (long_term_scores d) + 1 <? LONG_TERM_WINDOW then
    state d' = "PRIMING" /\ was_above d' = was_above d
  else
    was_above d' = Some is_above /\
    state d' = match was_above d with
               | None => state d
               | Some false => if is_above then "TRENDING_UP" else "MAINTAIN_POOR"
               | Some true => if is_above then "MAINTAIN_GOOD" else "TRENDING_DOWN"
               end.
Proof.
  unfold score_added, _update_state, mbind, M_bind, bind, get, modify. simpl.
  rewrite fifo_push_length.
  assert (E : ((if LONG_TERM_WINDOW <? len (long_term_scores d) + 1
                then len (long_term_scores d) else len (long_term_scores d) + 1)
               <? LONG_TERM_WINDOW)
              = (len (long_term_scores d) + 1 <? LONG_TERM_WINDOW)).
  { destruct (Z.ltb_spec LONG_TERM_WINDOW (len (long_term_scores d) + 1));
      destruct (Z.ltb_spec (len (long_term_scores d) + 1) LONG_TERM_WINDOW);
      try reflexivity; lia. }
  rewrite E. clear E.
  destruct (len (long_term_scores d) + 1 <? LONG_TERM_WINDOW); [simpl; tauto|].
  destruct (was_above d) as [[]|]; destruct (gt (Float a) (Float b)); simpl; tauto.
Qed.

(** The labels a primed region can carry, and the five of the state enum. *)
Definition trend_states : list string :=
  ["TRENDING_UP"; "TRENDING_DOWN"; "MAINTAIN_GOOD"; "MAINTAIN_POOR"].
Definition enum_states : list string := "PRIMING" :: trend_states.

(** What holds of a region dict [n] calls after its creation. *)
Definition after_calls (n : Z) (d : region_data) : Prop :=
  scores_safe d /\
  len (long_term_scores d) = Z.min n LONG_TERM_WINDOW /\
  (n < LONG_TERM_WINDOW -> was_above d = None) /\
  (LONG_TERM_WINDOW <= n -> was_above d <> None) /\
  (n = 0 -> state d = "MAINTAIN_NEUTRAL") /\
  (1 <= n <= LONG_TERM_WINDOW -> state d = "PRIMING") /\
  (LONG_TERM_WINDOW < n -> state d ∈ trend_states).

Lemma after_calls_new_region : after_calls 0 new_region.
Proof.
  unfold after_calls, scores_safe, LONG_TERM_WINDOW, len. simpl.
  repeat split; try constructor; try lia; try discriminate.
Qed.

Lemma score_added_safe score a b d :
  float_safe score -> scores_safe d -> scores_safe (score_added score a b d).
Proof.
  intros Hz [Hs Hl].
  destruct (score_added_fields score a b d) as (E1 & E2 & _).
  unfold scores_safe. rewrite E1, E2.
  split; apply Forall_fifo_push; assumption.
Qed.

Lemma after_calls_step n score a b d :
  0 <= n -> float_safe score -> after_calls n d ->
  after_calls (n + 1) (score_added score a b d).
Proof.
  intros Hn Hz (Hsafe & Hlen & Hnone & Hsome & H0 & Hp & Ht).
  pose proof (score_added_label score a b d) as Hlab.
  destruct (score_added_fields score a b d) as (_ & E2 & _).
  cbv zeta in Hlab. unfold after_calls.
  split; [apply score_added_safe; assumption|].
  split.
  { rewrite E2, fifo_push_length, Hlen. unfold LONG_TERM_WINDOW.
    destruct (Z.ltb_spec 100 (Z.min n 100 + 1)); lia. }
  rewrite Hlen in Hlab. unfold LONG_TERM_WINDOW in *.
  destruct (Z.ltb_spec (Z.min n 100 + 1) 100) as [Hlt|Hge].
  - destruct Hlab as [Hst Hwa].
    repeat split; intros; try lia; try assumption.
    rewrite Hwa. apply Hnone. lia.
  - destruct Hlab as [Hwa Hst].
    repeat split; intros; try lia.
    + rewrite Hwa. discriminate.
    + assert (n = 99) as -> by lia.
      rewrite Hst, (Hnone ltac:(lia)). apply Hp. lia.
    + rewrite Hst. destruct (was_above d) as [[]|] eqn:Hw.
      * destruct (gt _ _); unfold trend_states; rewrite list_elem_of_In; simpl; tauto.
      * destruct (gt _ _); unfold trend_states; rewrite list_elem_of_In; simpl; tauto.
      * exfalso. apply Hsome; [lia|reflexivity].
Qed.

(** Feeding safe scores to a region that is [n] calls old. *)
Lemma add_scores_after_calls region scores n self :
  0 <= n -> Forall float_safe scores -> after_calls n (region_of self region) ->
  exists self',
    add_scores region scores self = (Returns tt, self') /\
    after_calls (n + len scores) (region_of self' region) /\
    (scores <> [] -> is_Some (regions self' !! region)).
Proof.
  revert n self. induction scores as [|score rest IH]; intros n self Hn Hs Hd.
  - exists self. split; [reflexivity|]. split; [|intros []; reflexivity].
    replace (n + len []) with n by (unfold len; simpl; lia). exact Hd.
  - inversion Hs as [|? ? Hz Hrest]; subst.
    destruct (add_sentiment_score_returns region score self Hz (proj1 Hd))
      as (a & b & _ & _ & Hrun).
    set (self1 := {| regions := _ |}) in Hrun.
    assert (H1 : region_of self1 region = score_added score a b (region_of self region)).
    { unfold region_of at 1, self1. simpl. rewrite lookup_insert_eq. reflexivity. }
    destruct (IH (n + 1) self1 ltac:(lia) Hrest) as (self' & Hrun' & Hafter & _).
    { rewrite H1. apply after_calls_step; assumption. }
    exists self'. simpl. unfold mbind, M_bind, bind. rewrite Hrun.
    split; [exact Hrun'|]. split.
    + replace (n + len (score :: rest)) with (n + 1 + len rest)
        by (unfold len; simpl length; lia).
      exact Hafter.
    + intros _. destruct rest as [|score' rest'].
      * simpl in Hrun'. injection Hrun' as <-. unfold self1. simpl.
        rewrite lookup_insert_eq. eexists; reflexivity.
      * destruct (IH (n + 1) self1 ltac:(lia) Hrest) as (self2 & Hrun2 & _ & Hsome).
        { rewrite H1. apply after_calls_step; assumption. }
        rewrite Hrun' in Hrun2. injection Hrun2 as <-. apply Hsome. discriminate.
Qed.

(** C2 (as amended).  A region that does not exist yet and is fed any
    sequence of scores whose means fit a double: every call returns; the
    long-term window holds min(n, 100) scores after n calls; after a call a
    long-term window shorter than LONG_TERM_WINDOW implies the state
    PRIMING; and the state is PRIMING after each of the first 100 calls and
    one of the four trend labels from call 101 onward, whatever the
    scores.  Before the first call the state of the created region is
    MAINTAIN_NEUTRAL. *)
Theorem priming_until_call_100
    (region : string) (scores : list Z) (self : HappinessTracker) :
  regions self !! region = None ->
  Forall float_safe scores ->
  exists self',
    add_scores region scores self = (Returns tt, self') /\
    let d := region_of self' region in
    let n := len scores in
    len (long_term_scores d) = Z.min n 100 /\
    (n = 0 -> state d = "MAINTAIN_NEUTRAL") /\
    (1 <= n -> len (long_term_scores d) < LONG_TERM_WINDOW -> state d = "PRIMING") /\
    (1 <= n -> (state d = "PRIMING" <-> n <= 100)) /\
    (100 < n -> state d ∈ trend_states).
Proof.
  intros Hnone Hs.
  destruct (add_scores_after_calls region scores 0 self ltac:(lia) Hs)
    as (self' & Hrun & Hafter & _).
  { unfold region_of. rewrite Hnone. apply after_calls_new_region. }
  exists self'. split; [exact Hrun|]. simpl.
  rewrite Z.add_0_l in Hafter.
  destruct Hafter as (_ & Hlen & _ & _ & H0 & Hp & Ht).
  unfold LONG_TERM_WINDOW in *.
  split; [exact Hlen|]. split; [exact H0|].
  split; [intros; apply Hp; lia|].
  split; [|exact Ht].
  intros H1. split.
  - intros Hst. destruct (Z.le_gt_cases (len scores) 100) as [|Hgt]; [assumption|].
    specialize (Ht Hgt). rewrite Hst in Ht. unfold trend_states in Ht.
    exfalso. rewrite list_elem_of_In in Ht. simpl in Ht. intuition discriminate.
  - intros. apply Hp. lia.
Qed.

Lemma priming_until_call_100_witness :
  exists self',
    add_scores "Dallas" (replicate 101 (-1)) __init__ = (Returns tt, self') /\
    state (region_of self' "Dallas") ∈ trend_states.
Proof.
  destruct (priming_until_call_100 "Dallas" (replicate 101 (-1)) __init__)
    as (self' & Hrun & _ & _ & _ & _ & Ht).
  - reflexivity.
  - apply Forall_replicate. unfold float_safe. vm_compute. discriminate.
  - exists self'. split; [exact Hrun|]. apply Ht. vm_compute. reflexivity.
Defined.

(** C2 (as stated) fails twice: the region that [get_region_snapshot]
    creates has an empty long-term window and the state MAINTAIN_NEUTRAL,
    and after the 100th call the window is full while the state is still
    PRIMING. *)
Lemma priming_iff_window_short_fails :
  (let d := region_of (get_region_snapshot "Dallas" __init__).2 "Dallas" in
   ~ (state d = "PRIMING" <-> len (long_term_scores d) < LONG_TERM_WINDOW)) /\
  (let d := region_of (add_scores "Dallas" (replicate 100 1) __init__).2 "Dallas" in
   ~ (state d = "PRIMING" <-> len (long_term_scores d) < LONG_TERM_WINDOW)).
Proof.
  split.
  - vm_compute. intros [_ H]. specialize (H eq_refl). discriminate.
  - vm_compute. intros [H _]. specialize (H eq_refl). discriminate.
Qed.

(** A check of [scores_safe] that computes. *)
Definition float_safeb (z : Z) : bool := Z.abs z <=? 2 ^ SAFE_EXP.

Lemma scores_safe_check d :
  (forallb float_safeb (short_term_scores d)
   && forallb float_safeb (long_term_scores d)) = true ->
  scores_safe d.
Proof.
  intros [Hs Hl]%andb_prop. unfold scores_safe.
  rewrite !List.Forall_forall. rewrite forallb_forall in Hs, Hl.
  split; intros z Hz; [apply Hs in Hz|apply Hl in Hz];
    unfold float_safeb in Hz; unfold float_safe; lia.
Qed.

(** C4.  A call on a region whose long-term window is full once the score
    is in (that is, held at least LONG_TERM_WINDOW - 1 scores before)
    recomputes both averages and then: when [was_above] was set, labels the
    region TRENDING_UP if the short average is above the long one and was
    not before, TRENDING_DOWN if it is not above and was before,
    MAINTAIN_GOOD if it stays above and MAINTAIN_POOR if it stays not
    above; when [was_above] was unset, leaves the label as it was.  In both
    cases [was_above] becomes the new relation. *)
Theorem trend_classification
    (region : string) (score : Z) (self : HappinessTracker) (d : region_data) :
  regions self !! region = Some d ->
  float_safe score ->
  scores_safe d ->
  LONG_TERM_WINDOW <= len (long_term_scores d) + 1 ->
  exists self' d' a b,
    add_sentiment_score region score self = (Returns tt, self') /\
    regions self' !! region = Some d' /\
    mean (short_term_scores d') = Returns a /\ short_term_avg d' = Float a /\
    mean (long_term_scores d') = Returns b /\ long_term_avg d' = Float b /\
    let is_above := gt (short_term_avg d') (long_term_avg d') in
    was_above d' = Some is_above /\
    state d' = match was_above d with
               | None => state d
               | Some false => if is_above then "TRENDING_UP" else "MAINTAIN_POOR"
               | Some true => if is_above then "MAINTAIN_GOOD" else "TRENDING_DOWN"
               end.
Proof.
  intros Hd Hz Hsafe Hfull.
  assert (Hr : region_of self region = d) by (unfold region_of; rewrite Hd; reflexivity).
  destruct (add_sentiment_score_returns region score self Hz) as (a & b & Ha & Hb & Hrun).
  { rewrite Hr. exact Hsafe. }
  rewrite Hr in *.
  destruct (score_added_fields score a b d) as (E1 & E2 & E3 & E4 & _).
  pose proof (score_added_label score a b d) as Hlab. cbv zeta in Hlab.
  destruct (Z.ltb_spec (len (long_term_scores d) + 1) LONG_TERM_WINDOW) as [|_]; [lia|].
  destruct Hlab as [Hwa Hst].
  eexists _, (score_added score a b d), a, b.
  split; [exact Hrun|]. split; [apply lookup_insert_eq|].
  rewrite E1, E2, E3, E4. repeat split; assumption.
Qed.

Lemma trend_classification_witness :
  let self := (add_scores "Dallas" (replicate 100 0) __init__).2 in
  exists self' d',
    add_sentiment_score "Dallas" 1 self = (Returns tt, self') /\
    regions self' !! "Dallas" = Some d' /\
    was_above d' = Some (gt (short_term_avg d') (long_term_avg d')).
Proof.
  intros self.
  destruct (trend_classification "Dallas" 1 self (region_of self "Dallas"))
    as (self' & d' & a & b & Hrun & Hd' & _ & _ & _ & _ & Hwa & _).
  - vm_compute. reflexivity.
  - unfold float_safe. vm_compute. discriminate.
  - apply scores_safe_check. vm_compute. reflexivity.
  - vm_compute. discriminate.
  - exists self', d'. split; [exact Hrun|]. split; [exact Hd'|exact Hwa].
Defined.

(** C9.  A region that does not exist yet is created, by
    [_get_or_create_region] and so by [get_region_snapshot], with the state
    MAINTAIN_NEUTRAL, which is none of the five states of the enum; the
    snapshot shows it; and the first [add_sentiment_score], after the
    snapshot or without it, sets the state to PRIMING. *)
Theorem new_region_is_maintain_neutral
    (region : string) (score : Z) (self : HappinessTracker) :
  regions self !! region = None ->
  float_safe score ->
  ~ "MAINTAIN_NEUTRAL" ∈ enum_states /\
  (exists self1 d,
     _get_or_create_region region self = (Returns region, self1) /\
     regions self1 !! region = Some d /\ state d = "MAINTAIN_NEUTRAL") /\
  (exists snap self1 d,
     get_region_snapshot region self = (Returns snap, self1) /\
     snap_state snap = "MAINTAIN_NEUTRAL" /\
     state (read_snapshot self1 snap) = "MAINTAIN_NEUTRAL" /\
     regions self1 !! region = Some d /\ state d = "MAINTAIN_NEUTRAL" /\
     exists self2 d2,
       add_sentiment_score region score self1 = (Returns tt, self2) /\
       regions self2 !! region = Some d2 /\ state d2 = "PRIMING") /\
  (exists self2 d2,
     add_sentiment_score region score self = (Returns tt, self2) /\
     regions self2 !! region = Some d2 /\ state d2 = "PRIMING").
Proof.
  intros Hnone Hz.
  assert (Hfirst : forall s : HappinessTracker,
             region_of s region = new_region ->
             exists self2 d2,
               add_sentiment_score region score s = (Returns tt, self2) /\
               regions self2 !! region = Some d2 /\ state d2 = "PRIMING").
  { intros s Hs.
    destruct (add_sentiment_score_returns region score s Hz) as (a & b & _ & _ & Hrun).
    { rewrite Hs. apply after_calls_new_region. }
    rewrite Hs in Hrun. eexists _, _. split; [exact Hrun|].
    split; [apply lookup_insert_eq|].
    pose proof (score_added_label score a b new_region) as Hlab.
    cbv zeta in Hlab. simpl in Hlab. tauto. }
  split.
  { unfold enum_states, trend_states. rewrite list_elem_of_In. simpl.
    intuition discriminate. }
  split.
  { unfold _get_or_create_region, mbind, M_bind, bind, get, put, when, mret, M_ret, ret.
    simpl. rewrite Hnone. simpl. eexists _, _.
    split; [reflexivity|]. simpl. rewrite lookup_insert_eq. split; reflexivity. }
  split.
  - unfold get_region_snapshot, copy, _get_or_create_region.
    unfold mbind, M_bind, bind, get, put, when, mret, M_ret, ret, raise.
    simpl. rewrite Hnone. simpl. rewrite lookup_insert_eq.
    eexists _, _, _. split; [reflexivity|]. simpl.
    split; [reflexivity|]. split; [reflexivity|].
    split; [apply lookup_insert_eq|]. split; [reflexivity|].
    apply Hfirst. unfold region_of. simpl. rewrite lookup_insert_eq. reflexivity.
  - apply Hfirst. unfold region_of. rewrite Hnone. reflexivity.
Qed.

Lemma new_region_is_maintain_neutral_witness :
  exists snap self1,
    get_region_snapshot "Chicago" __init__ = (Returns snap, self1) /\
    snap_state snap = "MAINTAIN_NEUTRAL".
Proof.
  destruct (new_region_is_maintain_neutral "Chicago" 1 __init__)
    as (_ & _ & (snap & self1 & d & Hrun & Hsnap & _) & _).
  - reflexivity.
  - unfold float_safe. vm_compute. discriminate.
  - exists snap, self1. split; [exact Hrun|exact Hsnap].
Defined.





(** C1 fails on the code: the dict returned by [get_region_snapshot] holds
    the tracker's own three lists.  Snapshot of a new region "Dallas", then
    one [add_sentiment_score("Dallas", 1)]: read before the call the
    snapshot has three empty lists, read after it they are [1], [1] and
    [1.0]; only the numbers, the flag and the label kept their values. *)
Lemma snapshot_shares_the_lists :
  exists snap self1 self2,
    get_region_snapshot "Dallas" __init__ = (Returns snap, self1) /\
    add_sentiment_score "Dallas" 1 self1 = (Returns tt, self2) /\
    read_snapshot self1 snap =
      {| short_term_scores := []; long_term_scores := [];
         short_term_avg := Int 0; long_term_avg := Int 0;
         was_above := None; state := "MAINTAIN_NEUTRAL"; history := [] |} /\
    read_snapshot self2 snap =
      {| short_term_scores := [1]; long_term_scores := [1];
         short_term_avg := Int 0; long_term_avg := Int 0;
         was_above := None; state := "MAINTAIN_NEUTRAL"; history := [Float 1] |}.
Proof.
  eexists _, _, _.
  split; [vm_compute; reflexivity|].
  split; [vm_compute; reflexivity|].
  split; vm_compute; reflexivity.
Qed.

End TrackerFacts.

(** ** Properties of the agent loop *)

Section AgentFacts.
Import Agent.
Context `{Services}.

Lemma elem_of_dict_add {V} (r k : string) (v v0 : V) (d : dict V) :
  (r, v) ∈ dict_add k v0 d <-> (r, v) ∈ d \/ (r = k /\ v = v0).
Proof.
  unfold dict_add. rewrite elem_of_app, list_elem_of_singleton.
  split; (intros [Hin|Heq]; [left; exact Hin|right]).
  - injection Heq as -> ->. split; reflexivity.
  - destruct Heq as [-> ->]. reflexivity.
Qed.

Lemma elem_of_dict_alter {V} (f : V -> V) (r k : string) (v : V) (d : dict V) :
  (r, v) ∈ dict_alter f k d ->
  (r, v) ∈ d \/ (r = k /\ exists v0, (r, v0) ∈ d /\ v = f v0).
Proof.
  induction d as [|[k' v'] d IH]; simpl; [intros Hin; left; exact Hin|].
  destruct (bool_decide (k = k')) eqn:Hk.
  - apply bool_decide_eq_true in Hk as <-.
    rewrite !elem_of_cons. intros [Heq|Hin].
    + injection Heq as -> ->. right. split; [reflexivity|].
      exists v'. split; [left; reflexivity|reflexivity].
    + left. right. exact Hin.
  - rewrite !elem_of_cons. intros [Heq|Hin]; [left; left; exact Heq|].
    destruct (IH Hin) as [Hd|(-> & v0 & Hv0 & ->)].
    + left. right. exact Hd.
    + right. split; [reflexivity|]. exists v0. split; [right; exact Hv0|reflexivity].
Qed.

Lemma elem_of_dict_alter_ne {V} (f : V -> V) (r k : string) (v : V) (d : dict V) :
  r <> k -> (r, v) ∈ dict_alter f k d <-> (r, v) ∈ d.
Proof.
  intros Hne. induction d as [|[k' v'] d IH]; simpl; [reflexivity|].
  destruct (bool_decide (k = k')) eqn:Hk.
  - apply bool_decide_eq_true in Hk as <-.
    rewrite !elem_of_cons. split; (intros [Heq|Hin]; [|right; exact Hin]).
    + injection Heq as -> _. contradiction.
    + injection Heq as -> _. contradiction.
  - rewrite !elem_of_cons, IH. reflexivity.
Qed.

(** [get_region_snapshot] always returns. *)
Lemma get_region_snapshot_returns region self :
  exists snap self', get_region_snapshot region self = (Returns snap, self').
Proof.
  unfold get_region_snapshot, copy, _get_or_create_region.
  unfold mbind, M_bind, bind, get, put, when, mret, M_ret, ret, raise. simpl.
  destruct (regions self !! region) as [d|] eqn:Hd; simpl.
  - rewrite Hd. eexists _, _. reflexivity.
  - rewrite lookup_insert_eq. eexists _, _. reflexivity.
Qed.

(** The items of LOOP 2 that are skipped. *)
Definition skipped (item : string * buckets) : bool :=
  bool_decide (item.1 = "global")
  || (bool_decide (network_metrics item.2 = [])
      && bool_decide (analyzed_posts item.2 = [])).

(** One step of LOOP 2 returns; it leaves [decided] alone for a skipped
    item and otherwise appends the region with the buckets of the item. *)
Lemma decide_region_run decided region data st :
  exists out st',
    decide_region decided (region, data) st = (Returns out, st') /\
    if skipped (region, data) then out = decided /\ st' = st
    else exists snap,
        out = decided ++ [(region,
                           {| happiness_state := snap;
                              bundle_network_metrics := network_metrics data;
                              recent_posts := analyzed_posts data |})].
Proof.
  unfold decide_region, skipped. simpl.
  destruct (_ || _).
  - eexists _, _. split; [reflexivity|]. split; reflexivity.
  - destruct (get_region_snapshot_returns region (tracker st)) as (snap & t' & Hsnap).
    unfold mbind, M_bind, bind, on_tracker, zoom, call, send_report_to_server, modify,
      mret, M_ret, ret.
    rewrite Hsnap. simpl.
    destruct (get_proactive_decision _ _ _) as [[dec|] w]; simpl;
      eexists _, _; (split; [reflexivity|]); exists snap; reflexivity.
Qed.

(** LOOP 2 returns, and what it decided on are items that were not
    skipped. *)
Lemma foldM_decide_region_run grouped decided st :
  exists out st',
    foldM decide_region decided grouped st = (Returns out, st') /\
    forall region bundle, (region, bundle) ∈ out ->
      (region, bundle) ∈ decided \/
      exists data, (region, data) ∈ grouped /\ skipped (region, data) = false /\
        bundle_network_metrics bundle = network_metrics data /\
        recent_posts bundle = analyzed_posts data.
Proof.
  revert decided st. induction grouped as [|[region data] grouped IH]; intros decided st.
  - exists decided, st. split; [reflexivity|]. intros; left; assumption.
  - destruct (decide_region_run decided region data st) as (out1 & st1 & Hrun1 & Hout1).
    destruct (IH out1 st1) as (out & st' & Hrun & Hout).
    exists out, st'. split.
    { cbn [foldM]. unfold bind. rewrite Hrun1. exact Hrun. }
    intros r b Hin. destruct (Hout r b Hin) as [Hin1|(data' & Hd & Hs & Hb)].
    + destruct (skipped (region, data)) eqn:Hskip.
      * destruct Hout1 as [-> _]. left. exact Hin1.
      * destruct Hout1 as [snap ->].
        apply elem_of_app in Hin1 as [Hin1|Hin1]; [left; exact Hin1|].
        apply list_elem_of_singleton in Hin1. injection Hin1 as -> ->.
        right. exists data. split; [left|]. simpl. auto.
    + right. exists data'. split; [right; exact Hd|]. auto.
Qed.

(** An event that LOOP 1 passes over without touching anything: its
    region is missing, null or empty. *)
Definition no_region (e : event) : Prop := truthy (ev_region e) = false.

(** A text event whose classification fails, whatever the state of the
    outside world: the call returns [None] or an empty dict. *)
Definition is_text_event (e : event) : Prop :=
  ev_event_type e = Some "social_media_post" \/
  ev_event_type e = Some "support_interaction".

Definition classification_fails (e : event) : Prop :=
  is_text_event e /\
  forall w, let r := (get_event_analysis (default "" (or_ (ev_text e) (ev_log e))) w).1 in
            r = None \/ r = Some [].

(** Every bucket stored for [region] is empty. *)
Definition nothing_for (region : string) (grouped_data : dict buckets) : Prop :=
  forall data, (region, data) ∈ grouped_data ->
    network_metrics data = [] /\ analyzed_posts data = [].

Lemma nothing_for_add_empty region k grouped_data :
  nothing_for region grouped_data ->
  nothing_for region
    (if negb (dict_contains k grouped_data)
     then dict_add k empty_buckets grouped_data else grouped_data).
Proof.
  intros Hn. destruct (negb _); [|exact Hn].
  intros data [Hin|[_ ->]]%elem_of_dict_add; [apply Hn; exact Hin|].
  split; reflexivity.
Qed.

Lemma is_text_event_branch e :
  is_text_event e ->
  exists etype, ev_event_type e = Some etype /\
    bool_decide (etype = "network_metric") = false /\
    bool_decide (etype = "social_media_post")
    || bool_decide (etype = "support_interaction") = true.
Proof.
  intros [He|He]; rewrite He; eexists; (split; [reflexivity|]); split; reflexivity.
Qed.

(** LOOP 1 keeps the buckets of [region] empty on an event of another
    region and on an event whose classification fails. *)
Lemma perceive_nothing_for region grouped_data e st out st' :
  nothing_for region grouped_data ->
  ev_region e <> Some region \/ classification_fails e ->
  perceive grouped_data e st = (Returns out, st') ->
  nothing_for region out.
Proof.
  intros Hn Hev. unfold perceive.
  unfold mbind, M_bind, bind, call, on_tracker, zoom, mret, M_ret, ret, raise.
  destruct (truthy (ev_region e)) eqn:Htr; simpl.
  { destruct (ev_region e) as [k|] eqn:Hk; [|discriminate]. simpl.
    pose proof (nothing_for_add_empty region k grouped_data Hn) as Hn'.
    set (g := if negb _ then _ else _) in *.
    destruct Hev as [Hne|[Htext Hfail]].
    - assert (Hrk : region <> k) by congruence.
      destruct (ev_event_type e) as [etype|]; [|discriminate].
      destruct (bool_decide (etype = "network_metric")).
      { intros [= <- <-]. intros data Hin.
        apply elem_of_dict_alter_ne in Hin; [apply Hn'; exact Hin|exact Hrk]. }
      destruct (_ || _); [|intros [= <- <-]; exact Hn'].
      destruct (negb (truthy (or_ _ _))); [intros [= <- <-]; exact Hn'|].
      destruct (get_event_analysis _ _) as [[[|kv a]|] w]; simpl;
        try (intros [= <- <-]; exact Hn').
      destruct (add_sentiment_score _ _ _) as [[[]|ex] t']; simpl; [|discriminate].
      intros [= <- <-]. intros data Hin.
      apply elem_of_dict_alter_ne in Hin; [apply Hn'; exact Hin|exact Hrk].
    - destruct (is_text_event_branch e Htext) as (etype & E1 & E2 & E3).
      rewrite E1, E2, E3.
      destruct (negb (truthy (or_ _ _))); [intros [= <- <-]; exact Hn'|].
      specialize (Hfail (env st)). cbv zeta in Hfail.
      destruct (get_event_analysis _ _) as [r w]. simpl in Hfail.
      destruct Hfail as [-> | ->]; simpl; intros [= <- <-]; exact Hn'. }
  intros [= <- <-]. exact Hn.
Qed.

Lemma foldM_perceive_nothing_for region events grouped_data st out st' :
  nothing_for region grouped_data ->
  Forall (fun e => ev_region e <> Some region \/ classification_fails e) events ->
  foldM perceive grouped_data events st = (Returns out, st') ->
  nothing_for region out.
Proof.
  revert grouped_data st. induction events as [|e events IH]; intros g st Hn Hall.
  - simpl. intros [= <- <-]. exact Hn.
  - inversion Hall as [|? ? He Hrest]; subst. simpl. unfold bind.
    destruct (perceive g e st) as [[g1|ex] st1] eqn:Hrun; [|discriminate].
    apply (IH g1 st1); [|exact Hrest].
    eapply perceive_nothing_for; eassumption.
Qed.

Lemma cycle_run events st out st' :
  cycle events st = (Returns out, st') ->
  exists grouped_data st1,
    perceive_and_analyze events st = (Returns grouped_data, st1) /\
    decide_and_act grouped_data st1 = (Returns out, st').
Proof.
  unfold cycle, mbind, M_bind, bind.
  destruct (perceive_and_analyze events st) as [[g|ex] st1]; [|discriminate].
  intros Hrun. exists g, st1. split; [reflexivity|exact Hrun].
Qed.

Lemma decided_not_skipped grouped_data st out st' :
  decide_and_act grouped_data st = (Returns out, st') ->
  forall region bundle, (region, bundle) ∈ out ->
    exists data, (region, data) ∈ grouped_data /\ skipped (region, data) = false /\
      bundle_network_metrics bundle = network_metrics data /\
      recent_posts bundle = analyzed_posts data.
Proof.
  intros Hrun region bundle Hin. unfold decide_and_act in Hrun.
  destruct (foldM_decide_region_run grouped_data [] st) as (out2 & st2 & Hrun2 & Hout).
  rewrite Hrun in Hrun2. injection Hrun2 as <- <-.
  destruct (Hout region bundle Hin) as [Hnil|Hdata]; [|exact Hdata].
  apply not_elem_of_nil in Hnil. contradiction.
Qed.

(** C5.  In the output of a cycle, every region comes with a network metric
    or an analyzed post: a region with neither is not decided on.  A
    region whose events in the batch are all text events with a failing
    classification is not in the output. *)
Theorem regions_with_nothing_are_left_out
    (events : list event) (st : cycle_state)
    (out : dict final_bundle) (st' : cycle_state) :
  cycle events st = (Returns out, st') ->
  (forall region bundle, (region, bundle) ∈ out ->
     bundle_network_metrics bundle <> [] \/ recent_posts bundle <> []) /\
  (forall region,
     Forall (fun e => ev_region e = Some region -> classification_fails e) events ->
     forall bundle, ~ (region, bundle) ∈ out).
Proof.
  intros Hrun. destruct (cycle_run _ _ _ _ Hrun) as (g & st1 & Hrun1 & Hrun2).
  split.
  - intros region bundle Hin.
    destruct (decided_not_skipped _ _ _ _ Hrun2 region bundle Hin)
      as (data & _ & Hskip & -> & ->).
    unfold skipped in Hskip. simpl in Hskip.
    apply orb_false_elim in Hskip as [_ Hskip].
    destruct (network_metrics data); [|left; discriminate].
    destruct (analyzed_posts data); [|right; discriminate].
    discriminate.
  - intros region Hall bundle Hin.
    destruct (decided_not_skipped _ _ _ _ Hrun2 region bundle Hin)
      as (data & Hdata & Hskip & _).
    assert (Hn : nothing_for region g).
    { apply (foldM_perceive_nothing_for region events [] st g st1).
      - intros d Hd. apply not_elem_of_nil in Hd. contradiction.
      - eapply Forall_impl; [exact Hall|]. intros e He. simpl in He.
        destruct (decide (ev_region e = Some region)) as [Heq|Hne];
          [right; apply He; exact Heq|left; exact Hne].
      - exact Hrun1. }
    destruct (Hn data Hdata) as [Hnm Hap].
    unfold skipped in Hskip. simpl in Hskip. rewrite Hnm, Hap in Hskip.
    rewrite orb_true_r in Hskip. discriminate.
Qed.

(** An event touches only the buckets stored under its own region. *)
Lemma perceive_other_buckets grouped_data e st out st' k :
  ev_region e = Some k ->
  perceive grouped_data e st = (Returns out, st') ->
  forall region data, region <> k ->
    (region, data) ∈ out <-> (region, data) ∈ grouped_data.
Proof.
  intros Hk Hrun region data Hne. revert Hrun. unfold perceive.
  unfold mbind, M_bind, bind, call, on_tracker, zoom, mret, M_ret, ret, raise.
  rewrite Hk. destruct (truthy (Some k)); simpl; [|intros [= <- <-]; reflexivity].
  set (g := if negb _ then _ else _).
  assert (Hg : (region, data) ∈ g <-> (region, data) ∈ grouped_data).
  { subst g. destruct (negb _); [|reflexivity].
    rewrite elem_of_dict_add. split; [intros [Hin|[Heq _]]|left]; tauto. }
  destruct (ev_event_type e) as [etype|]; [|discriminate].
  destruct (bool_decide (etype = "network_metric")).
  { intros [= <- <-]. rewrite elem_of_dict_alter_ne by exact Hne. exact Hg. }
  destruct (_ || _); [|intros [= <- <-]; exact Hg].
  destruct (negb (truthy (or_ _ _))); [intros [= <- <-]; exact Hg|].
  destruct (get_event_analysis _ _) as [[[|kv a]|] w]; simpl;
    try (intros [= <- <-]; exact Hg).
  destruct (add_sentiment_score _ _ _) as [[[]|ex] t']; simpl; [|discriminate].
  intros [= <- <-]. rewrite elem_of_dict_alter_ne by exact Hne. exact Hg.
Qed.

(** An event updates the tracker only under its own region. *)
Lemma perceive_other_regions grouped_data e st o st' k :
  ev_region e = Some k ->
  perceive grouped_data e st = (o, st') ->
  forall region, region <> k ->
    regions (tracker st') !! region = regions (tracker st) !! region.
Proof.
  intros Hk Hrun region Hne. revert Hrun. unfold perceive.
  unfold mbind, M_bind, bind, call, on_tracker, zoom, mret, M_ret, ret, raise.
  rewrite Hk. destruct (truthy (Some k)); simpl; [|intros [= <- <-]; reflexivity].
  destruct (ev_event_type e) as [etype|]; [|intros [= <- <-]; reflexivity].
  destruct (bool_decide (etype = "network_metric")); [intros [= <- <-]; reflexivity|].
  destruct (_ || _); [|intros [= <- <-]; reflexivity].
  destruct (negb (truthy (or_ _ _))); [intros [= <- <-]; reflexivity|].
  destruct (get_event_analysis _ _) as [[[|kv a]|] w]; simpl;
    try (intros [= <- <-]; reflexivity).
  rewrite add_sentiment_score_run.
  destruct (add_score _ _) as [[[]|ex] d']; simpl; intros [= <- <-]; simpl;
    apply lookup_insert_ne; congruence.
Qed.

(** C6 (as amended).  An event whose region is missing, null or empty is
    passed over: the grouping, the tracker and the outside world stay as
    they are.  No "global" entry is in the output of a cycle.  An event of
    region "global" changes no bucket and no tracker entry of any other
    region, and when it is not a text event (an app crash, say) it changes
    neither the tracker nor the outside world. *)
Theorem global_and_regionless_events
    (events : list event) (grouped_data : dict buckets) (e : event)
    (st : cycle_state) :
  (no_region e -> perceive grouped_data e st = (Returns grouped_data, st)) /\
  (forall out st', cycle events st = (Returns out, st') ->
     forall bundle, ~ ("global", bundle) ∈ out) /\
  (ev_region e = Some "global" ->
   forall o st', perceive grouped_data e st = (o, st') ->
     (forall region, region <> "global" ->
        regions (tracker st') !! region = regions (tracker st) !! region) /\
     (forall out, o = Returns out -> forall region data, region <> "global" ->
        (region, data) ∈ out <-> (region, data) ∈ grouped_data) /\
     (~ is_text_event e -> st' = st)).
Proof.
  split; [|split].
  - unfold no_region, perceive. intros ->. reflexivity.
  - intros out st' Hrun bundle Hin.
    destruct (cycle_run _ _ _ _ Hrun) as (g & st1 & _ & Hrun2).
    destruct (decided_not_skipped _ _ _ _ Hrun2 "global" bundle Hin)
      as (data & _ & Hskip & _).
    unfold skipped in Hskip. simpl in Hskip. discriminate.
  - intros Hk o st' Hrun. split; [|split].
    + eapply perceive_other_regions; eassumption.
    + intros out ->. eapply perceive_other_buckets; eassumption.
    + intros Hnt. revert Hrun. unfold perceive.
      unfold mbind, M_bind, bind, call, on_tracker, zoom, mret, M_ret, ret, raise.
      rewrite Hk. simpl.
      destruct (ev_event_type e) as [etype|] eqn:Het; [|intros [= <- <-]; reflexivity].
      destruct (bool_decide (etype = "network_metric")); [intros [= <- <-]; reflexivity|].
      destruct (bool_decide (etype = "social_media_post")) eqn:E1.
      { apply bool_decide_eq_true in E1 as ->. exfalso. apply Hnt. left. exact Het. }
      destruct (bool_decide (etype = "support_interaction")) eqn:E2.
      { apply bool_decide_eq_true in E2 as ->. exfalso. apply Hnt. right. exact Het. }
      simpl. intros [= <- <-]. reflexivity.
Qed.

End AgentFacts.

(** *** A scripted batch *)

Section AgentRun.
Import Agent.

(** A classifier that times out on one text, likes another and finds the
    rest negative; a decision service that always answers. *)
Definition keyword_classifier (text : string) : option analysis :=
  if bool_decide (text = "timeout") then None
  else if bool_decide (text = "love the new plan") then
    Some [("sentiment", "positive"); ("topic", "billing"); ("urgency", "low")]
  else
    Some [("sentiment", "negative"); ("topic", "app_functionality"); ("urgency", "high")].

Definition scripted : Services :=
  {| world := unit;
     decision := string;
     get_event_analysis := fun text w => (keyword_classifier text, w);
     get_proactive_decision := fun _ _ w => (Some "log_and_monitor", w) |}.

Definition network_metric (region : string) : event :=
  {| ev_region := Some region; ev_event_type := Some "network_metric";
     ev_text := None; ev_log := None;
     ev_fields := [("latency_ms", "45.3"); ("packet_loss_percent", "0.2")];
     ev_analysis := None |}.

Definition social_media_post (region text : string) : event :=
  {| ev_region := Some region; ev_event_type := Some "social_media_post";
     ev_text := Some text; ev_log := None;
     ev_fields := [("source", "X (Twitter)")];
     ev_analysis := None |}.

Definition app_crash : event :=
  {| ev_region := Some "global"; ev_event_type := Some "app_crash";
     ev_text := None; ev_log := None;
     ev_fields := [("platform", "iOS"); ("app_version", "10.1.2")];
     ev_analysis := None |}.

Definition start : @cycle_state scripted :=
  @Build_cycle_state scripted __init__ tt [].

(** The batch of the aggregator scenario: one network metric for Chicago
    and, for Austin, one post whose classification fails. *)
Lemma regions_with_nothing_are_left_out_witness :
  let events := [network_metric "Chicago"; social_media_post "Austin" "timeout"] in
  exists out st',
    @cycle scripted events start = (Returns out, st') /\
    (forall bundle, ~ ("Austin", bundle) ∈ out) /\
    out.*1 = ["Chicago"].
Proof.
  intros events.
  destruct (@cycle scripted events start) as [[out|ex] st'] eqn:Hrun;
    [|vm_compute in Hrun; discriminate].
  exists out, st'. split; [reflexivity|]. split.
  - apply (proj2 (regions_with_nothing_are_left_out events start out st' Hrun)).
    constructor; [intros Hreg; discriminate|].
    constructor; [|constructor].
    intros _. split; [left; reflexivity|]. intros w. left. reflexivity.
  - vm_compute in Hrun. injection Hrun as <- _. reflexivity.
Defined.

Lemma global_and_regionless_events_witness :
  (@perceive scripted [] app_crash start).2 = start.
Proof.
  destruct (@global_and_regionless_events scripted [] [] app_crash start)
    as (_ & _ & Hglobal).
  apply (Hglobal eq_refl (@perceive scripted [] app_crash start).1).
  - apply surjective_pairing.
  - intros [Ht|Ht]; discriminate.
Defined.

(** C6 (as stated) fails: a post of region "global" is classified, stored
    in the bucket under "global" and scored into the tracker. *)
Lemma global_post_reaches_the_tracker :
  let e := social_media_post "global" "app keeps crashing" in
  exists grouped_data st',
    @perceive_and_analyze scripted [e] start = (Returns grouped_data, st') /\
    (analyzed_posts <$> dict_get "global" grouped_data) =
      Some [set_analysis
              [("sentiment", "negative"); ("topic", "app_functionality");
               ("urgency", "high")] e] /\
    (short_term_scores <$> regions (tracker st') !! "global") = Some [-1] /\
    tracker st' <> tracker start.
Proof.
  eexists _, _. split; [vm_compute; reflexivity|].
  split; [vm_compute; reflexivity|].
  split; [vm_compute; reflexivity|].
  intros Heq. apply (f_equal (fun t => regions t !! "global")) in Heq.
  vm_compute in Heq. discriminate.
Qed.

End AgentRun.

(** ** Properties of the report sink *)

Section SinkFacts.
Import ReportSink.
Context `{Codec}.




(** The last [n] elements of a list, in their order. *)
Definition last_n {A} (n : nat) (l : list A) : list A := drop (length l - n) l.

Lemma last_n_length {A} n (l : list A) : (length (last_n n l) <= n)%nat.
Proof. unfold last_n. rewrite length_drop. lia. Qed.

Lemma last_n_app_last_n {A} n (l xs : list A) :
  last_n n (last_n n l ++ xs) = last_n n (l ++ xs).
Proof.
  unfold last_n. rewrite !length_app, length_drop.
  destruct (Nat.le_gt_cases (length l) n) as [Hle|Hgt].
  - replace (length l - n)%nat with 0%nat by lia. simpl.
    replace (length l - 0)%nat with (length l) by lia. reflexivity.
  - replace (length l + length xs - n)%nat
      with ((length l - n) + (length l - (length l - n) + length xs - n))%nat by lia.
    rewrite <- drop_drop, (drop_app_le l xs (length l - n)) by lia. reflexivity.
Qed.

Lemma deque_append_last_n {A} (n : nat) (x : A) l :
  (length l <= n)%nat -> deque_append (Z.of_nat n) x l = last_n n (l ++ [x]).
Proof.
  intros Hl. unfold deque_append, last_n. rewrite len_app1, length_app. simpl.
  unfold len. destruct (Z.ltb_spec (Z.of_nat n) (Z.of_nat (length l) + 1)).
  - replace (length l + 1 - n)%nat with 1%nat by lia. destruct l; reflexivity.
  - replace (length l + 1 - n)%nat with 0%nat by lia. reflexivity.
Qed.






End SinkFacts.

(** *** A run of the sink *)

Section SinkRun.
Import ReportSink.

(** A codec for JSON documents that are a decimal number in ASCII. *)
Fixpoint parse_digits (s : string) (acc : Z) : option Z :=
  match s with
  | EmptyString => Some acc
  | String c s' =>
      let n := Z.of_nat (Ascii.nat_of_ascii c) in
      if (48 <=? n) && (n <=? 57) then parse_digits s' (10 * acc + (n - 48)) else None
  end.

Definition parse_decimal (s : string) : option Z :=
  if bool_decide (s = "") then None else parse_digits s 0.

Definition decimal_codec : Codec :=
  {| json := Z;
     int_of_str := parse_decimal;
     utf8_decode := fun b => Some (String.string_of_list_byte b);
     json_loads := parse_decimal |}.

(** The request that posts the document [42], and a request whose body is
    not JSON. *)
Definition post_42 : request :=
  {| path := "/"; content_length := Some "2";
     rfile := String.list_byte_of_string "42" |}.
Definition post_garbage : request :=
  {| path := "/"; content_length := Some "3";
     rfile := String.list_byte_of_string "{x:" |}.






Example garbage_is_rejected :
  @do_POST decimal_codec "12:00:00" post_garbage (@data_store_init decimal_codec) =
    (Returns (_send_response 500 (Error JSONDecodeError)), data_store_init).
Proof. reflexivity. Qed.

Example document_is_stored :
  @do_POST decimal_codec "12:00:00" post_42 (@data_store_init decimal_codec) =
    (Returns (_send_response 200 ReportReceived),
     @Build_data_store decimal_codec [@Build_report decimal_codec "12:00:00" 42]).
Proof. reflexivity. Qed.

End SinkRun.

Example truediv_1_10 : truediv 1 10 = Returns (Qmake 3602879701896397 (2 ^ 55)).
Proof. vm_compute. reflexivity. Qed.

(** * More of the tracker *)

Section TrackerMore.

(** Feeding safe scores to a region, with a property of the region dict and
    of the scores fed so far that every call preserves. *)
Lemma add_scores_invariant (I : region_data -> list Z -> Prop) region :
  (forall d fed score a b,
     scores_safe d -> float_safe score -> I d fed ->
     mean (fifo_push SHORT_TERM_WINDOW score (short_term_scores d)) = Returns a ->
     mean (fifo_push LONG_TERM_WINDOW score (long_term_scores d)) = Returns b ->
     I (score_added score a b d) (fed ++ [score])) ->
  forall scores self fed,
    Forall float_safe scores ->
    scores_safe (region_of self region) ->
    I (region_of self region) fed ->
    exists self',
      add_scores region scores self = (Returns tt, self') /\
      scores_safe (region_of self' region) /\
      I (region_of self' region) (fed ++ scores).
Proof.
  intros Hstep scores. induction scores as [|score rest IH]; intros self fed Hs Hsafe HI.
  - exists self. rewrite app_nil_r. auto.
  - inversion Hs as [|? ? Hz Hrest]; subst.
    destruct (add_sentiment_score_returns region score self Hz Hsafe)
      as (a & b & Ha & Hb & Hrun).
    set (self1 := {| regions := _ |}) in Hrun.
    assert (H1 : region_of self1 region = score_added score a b (region_of self region)).
    { unfold region_of at 1, self1. simpl. rewrite lookup_insert_eq. reflexivity. }
    destruct (IH self1 (fed ++ [score]) Hrest) as (self' & Hrun' & Hsafe' & HI').
    + rewrite H1. apply score_added_safe; assumption.
    + rewrite H1. apply Hstep; assumption.
    + exists self'. cbn [add_scores]. unfold mbind, M_bind, bind. rewrite Hrun.
      rewrite <- app_assoc in HI'. auto.
Qed.

(** X1.  A call for one region leaves the dict of every other region as it
    was, whether the call returns or raises. *)
Theorem add_sentiment_score_touches_one_region
    (region other : string) (score : Z) (self : HappinessTracker) :
  other <> region ->
  regions (add_sentiment_score region score self).2 !! other = regions self !! other.
Proof.
  intros Hne. rewrite add_sentiment_score_run.
  destruct (add_score score _) as [o d']. simpl.
  apply lookup_insert_ne. congruence.
Qed.

Lemma add_sentiment_score_touches_one_region_witness :
  let self := (add_scores "Dallas" [1; 0; -1] __init__).2 in
  regions (add_sentiment_score "Chicago" 1 self).2 !! "Dallas" = regions self !! "Dallas".
Proof.
  intros self. apply add_sentiment_score_touches_one_region. discriminate.
Defined.

(** X2.  [get_region_snapshot] always returns; the tracker afterwards holds
    for the region the dict it held before, or the dict of a new region when
    there was none, and nothing else changed; and the snapshot read at once
    shows exactly that dict.  On a region that exists the tracker is left
    as it was. *)
Theorem get_region_snapshot_reads_the_region (region : string) (self : HappinessTracker) :
  exists snap self',
    get_region_snapshot region self = (Returns snap, self') /\
    regions self' = <[region := region_of self region]> (regions self) /\
    read_snapshot self' snap = region_of self region /\
    (is_Some (regions self !! region) -> self' = self).
Proof.
  unfold get_region_snapshot, copy, _get_or_create_region, region_of.
  unfold mbind, M_bind, bind, get, put, when, mret, M_ret, ret, raise. simpl.
  destruct (regions self !! region) as [d|] eqn:Hd; simpl.
  - rewrite Hd. eexists _, _. split; [reflexivity|].
    split; [symmetry; apply insert_id; exact Hd|].
    split; [|reflexivity].
    unfold read_snapshot. simpl. rewrite Hd. destruct d; reflexivity.
  - rewrite lookup_insert_eq. eexists _, _. split; [reflexivity|].
    split; [reflexivity|]. split; [|intros [? [=]]].
    unfold read_snapshot. simpl. rewrite lookup_insert_eq. reflexivity.
Qed.

Lemma fifo_push_last_n {A} (n : nat) (x : A) (fed : list A) :
  fifo_push (Z.of_nat n) x (last_n n fed) = last_n n (fed ++ [x]).
Proof.
  change (fifo_push (Z.of_nat n) x (last_n n fed))
    with (ReportSink.deque_append (Z.of_nat n) x (last_n n fed)).
  rewrite deque_append_last_n by apply last_n_length.
  apply last_n_app_last_n.
Qed.

(** The windows hold the most recent scores fed. *)
Definition holds_recent (d : region_data) (fed : list Z) : Prop :=
  short_term_scores d = last_n 10 fed /\
  long_term_scores d = last_n 100 fed /\
  length (history d) = Nat.min (length fed) 50 /\
  (was_above d = None <-> (length fed < 100)%nat).

Lemma holds_recent_step d fed score a b :
  holds_recent d fed -> holds_recent (score_added score a b d) (fed ++ [score]).
Proof.
  intros (Hs & Hl & Hh & Hw).
  destruct (score_added_fields score a b d) as (E1 & E2 & _ & _ & E5).
  pose proof (score_added_label score a b d) as Hlab. cbv zeta in Hlab.
  unfold holds_recent. rewrite E1, E2, E5, Hs, Hl.
  split; [apply (fifo_push_last_n 10)|]. split; [apply (fifo_push_last_n 100)|].
  assert (Hlen : len (long_term_scores d) = Z.of_nat (Nat.min (length fed) 100)).
  { rewrite Hl. unfold len, last_n. rewrite length_drop. lia. }
  split.
  - pose proof (fifo_push_length GRAPH_HISTORY_LENGTH (Float a) (history d)) as Hp.
    unfold len, GRAPH_HISTORY_LENGTH in *. rewrite length_app. simpl.
    destruct (Z.ltb_spec 50 (Z.of_nat (length (history d)) + 1)); lia.
  - rewrite Hlen in Hlab. unfold LONG_TERM_WINDOW in Hlab.
    rewrite length_app. cbn [length].
    destruct (Z.ltb_spec (Z.of_nat (Nat.min (length fed) 100) + 1) 100).
    + destruct Hlab as [_ ->]. rewrite Hw. lia.
    + destruct Hlab as [-> _]. split; [discriminate|lia].
Qed.

(** X3.  After n calls on a region that did not exist, with scores whose
    means fit a double, the short window is the last 10 scores fed, the
    long window the last 100, in the order they were fed; the history has
    min(n, 50) points; and [was_above] is unset exactly while fewer than
    100 scores were fed. *)
Theorem windows_hold_the_most_recent_scores
    (region : string) (scores : list Z) (self : HappinessTracker) :
  regions self !! region = None ->
  Forall float_safe scores ->
  exists self' d,
    add_scores region scores self = (Returns tt, self') /\
    region_of self' region = d /\
    short_term_scores d = last_n 10 scores /\
    long_term_scores d = last_n 100 scores /\
    length (history d) = Nat.min (length scores) 50 /\
    (was_above d = None <-> (length scores < 100)%nat).
Proof.
  intros Hnone Hs.
  assert (Hnew : region_of self region = new_region)
    by (unfold region_of; rewrite Hnone; reflexivity).
  destruct (add_scores_invariant holds_recent region) with (scores := scores)
    (self := self) (fed := @nil Z) as (self' & Hrun & _ & Hrec).
  - intros d fed score a b _ _ HI _ _. apply holds_recent_step. exact HI.
  - exact Hs.
  - rewrite Hnew. apply after_calls_new_region.
  - rewrite Hnew. unfold holds_recent. simpl.
    repeat split; try reflexivity; lia.
  - exists self', (region_of self' region). split; [exact Hrun|].
    split; [reflexivity|]. exact Hrec.
Qed.

Lemma windows_hold_the_most_recent_scores_witness :
  exists self' d,
    add_scores "Dallas" [1; 1; 0; -1; 1; 1; 0; 1; -1; 1; 0; 0] __init__
      = (Returns tt, self') /\
    region_of self' "Dallas" = d /\
    short_term_scores d = [0; -1; 1; 1; 0; 1; -1; 1; 0; 0].
Proof.
  destruct (windows_hold_the_most_recent_scores "Dallas"
              [1; 1; 0; -1; 1; 1; 0; 1; -1; 1; 0; 0] __init__)
    as (self' & d & Hrun & Hd & Hshort & _).
  - reflexivity.
  - rewrite List.Forall_forall. intros z Hz. unfold float_safe.
    assert (Z.abs z <= 1) by (simpl in Hz; intuition lia).
    etransitivity; [eassumption|]. vm_compute. discriminate.
  - exists self', d. split; [exact Hrun|]. split; [exact Hd|exact Hshort].
Defined.

(** X4.  A call that raises can only raise OverflowError, from one of the
    two means.  It has already put the score in both windows, evicting the
    oldest score of a full window; the long-term average, [was_above], the
    state and the history are as before the call, and the short-term
    average is either as before or already the mean of the new short
    window. *)
Theorem raising_call_leaves_a_partial_update
    (region : string) (score : Z) (self self' : HappinessTracker) (e : exn) :
  add_sentiment_score region score self = (Raises e, self') ->
  let d := region_of self region in
  e = OverflowError /\
  exists d',
    regions self' !! region = Some d' /\
    short_term_scores d' = fifo_push SHORT_TERM_WINDOW score (short_term_scores d) /\
    long_term_scores d' = fifo_push LONG_TERM_WINDOW score (long_term_scores d) /\
    long_term_avg d' = long_term_avg d /\
    was_above d' = was_above d /\
    state d' = state d /\
    history d' = history d /\
    (short_term_avg d' = short_term_avg d \/
     mean (short_term_scores d') = Returns (num_val (short_term_avg d'))).
Proof.
  intros Hrun. cbv zeta.
  rewrite add_sentiment_score_run in Hrun. fold (region_of self region) in Hrun.
  rewrite add_score_run in Hrun. cbv zeta in Hrun.
  set (d := region_of self region) in *.
  assert (Hmean : forall l ex, l <> [] -> mean l = Raises ex -> ex = OverflowError).
  { intros l ex Hl. unfold mean, truediv.
    destruct (Z.eqb_spec (len l) 0) as [H0|_].
    { destruct l; [contradiction|]. unfold len in H0. simpl in H0. lia. }
    destruct (_ =? _); [discriminate|].
    destruct (round_binary64 _ _) as [m s0]. destruct (overflows m s0); [|discriminate].
    intros [= <-]. reflexivity. }
  destruct (mean (short_term_scores (windows_pushed score d))) as [a|ex] eqn:Ha.
  - destruct (mean (long_term_scores (windows_pushed score d))) as [b|ex] eqn:Hb;
      [discriminate|].
    injection Hrun as <- <-. split.
    { apply (Hmean _ _ (fifo_push_nonempty LONG_TERM_WINDOW score _ eq_refl) Hb). }
    eexists. split; [apply lookup_insert_eq|]. simpl.
    repeat split; try reflexivity. right. exact Ha.
  - injection Hrun as <- <-. split.
    { apply (Hmean _ _ (fifo_push_nonempty SHORT_TERM_WINDOW score _ eq_refl) Ha). }
    eexists. split; [apply lookup_insert_eq|]. simpl.
    repeat split; try reflexivity. left. reflexivity.
Qed.

Lemma raising_call_leaves_a_partial_update_witness :
  exists self' d',
    add_sentiment_score "Dallas" (2 ^ 1024) __init__ = (Raises OverflowError, self') /\
    regions self' !! "Dallas" = Some d' /\
    history d' = [] /\ state d' = "MAINTAIN_NEUTRAL".
Proof.
  destruct (add_sentiment_score "Dallas" (2 ^ 1024) __init__) as [[[]|e] self'] eqn:Hrun;
    [vm_compute in Hrun; discriminate|].
  destruct (raising_call_leaves_a_partial_update _ _ _ _ _ Hrun)
    as (-> & d' & Hd' & _ & _ & _ & _ & Hst & Hh & _).
  exists self', d'. split; [reflexivity|]. split; [exact Hd'|].
  split; [exact Hh|exact Hst].
Defined.

(** X5.  On a region whose long window is full and whose [was_above] is
    set, a trend label lasts one call: the call after a TRENDING_UP gives
    MAINTAIN_GOOD or TRENDING_DOWN, the call after a TRENDING_DOWN gives
    MAINTAIN_POOR or TRENDING_UP.  After each such call the flag and the
    label agree: [was_above] is true exactly when the label is TRENDING_UP
    or MAINTAIN_GOOD. *)
Theorem trend_label_lasts_one_call
    (region : string) (score1 score2 : Z) (self : HappinessTracker) (d : region_data) :
  regions self !! region = Some d ->
  float_safe score1 -> float_safe score2 ->
  scores_safe d ->
  LONG_TERM_WINDOW <= len (long_term_scores d) + 1 ->
  was_above d <> None ->
  exists self1 d1 self2 d2,
    add_sentiment_score region score1 self = (Returns tt, self1) /\
    regions self1 !! region = Some d1 /\
    add_sentiment_score region score2 self1 = (Returns tt, self2) /\
    regions self2 !! region = Some d2 /\
    (was_above d1 = Some true <->
     state d1 = "TRENDING_UP" \/ state d1 = "MAINTAIN_GOOD") /\
    (state d1 = "TRENDING_UP" ->
     state d2 = "MAINTAIN_GOOD" \/ state d2 = "TRENDING_DOWN") /\
    (state d1 = "TRENDING_DOWN" ->
     state d2 = "MAINTAIN_POOR" \/ state d2 = "TRENDING_UP").
Proof.
  intros Hd Hz1 Hz2 Hsafe Hfull Hset.
  assert (Hr : region_of self region = d) by (unfold region_of; rewrite Hd; reflexivity).
  destruct (add_sentiment_score_returns region score1 self Hz1) as (a1 & b1 & _ & _ & Hrun1).
  { rewrite Hr. exact Hsafe. }
  rewrite Hr in Hrun1.
  set (d1 := score_added score1 a1 b1 d) in *.
  set (self1 := {| regions := _ |}) in Hrun1.
  assert (Hr1 : region_of self1 region = d1).
  { unfold region_of, self1. simpl. rewrite lookup_insert_eq. reflexivity. }
  destruct (add_sentiment_score_returns region score2 self1 Hz2) as (a2 & b2 & _ & _ & Hrun2).
  { rewrite Hr1. apply score_added_safe; assumption. }
  rewrite Hr1 in Hrun2.
  pose proof (score_added_label score1 a1 b1 d) as L1. cbv zeta in L1. fold d1 in L1.
  pose proof (score_added_label score2 a2 b2 d1) as L2. cbv zeta in L2.
  destruct (score_added_fields score1 a1 b1 d) as (_ & E2 & _). fold d1 in E2.
  assert (Hfull1 : LONG_TERM_WINDOW <= len (long_term_scores d1) + 1).
  { rewrite E2, fifo_push_length.
    destruct (Z.ltb_spec LONG_TERM_WINDOW (len (long_term_scores d) + 1)); lia. }
  destruct (Z.ltb_spec (len (long_term_scores d) + 1) LONG_TERM_WINDOW) as [|_]; [lia|].
  destruct (Z.ltb_spec (len (long_term_scores d1) + 1) LONG_TERM_WINDOW) as [|_]; [lia|].
  destruct L1 as [W1 S1]. destruct L2 as [W2 S2].
  eexists self1, d1, _, (score_added score2 a2 b2 d1).
  split; [exact Hrun1|]. split; [apply lookup_insert_eq|].
  split; [exact Hrun2|]. split; [apply lookup_insert_eq|].
  rewrite S2, W1, S1. clear S2 W2 Hrun2 Hrun1.
  destruct (was_above d) as [[]|]; [| |contradiction];
    destruct (gt (Float a1) (Float b1)); destruct (gt (Float a2) (Float b2));
    intuition (discriminate || auto).
Qed.

Lemma trend_label_lasts_one_call_witness :
  let self := (add_scores "Dallas" (replicate 100 0) __init__).2 in
  exists self1 d1 self2 d2,
    add_sentiment_score "Dallas" 1 self = (Returns tt, self1) /\
    regions self1 !! "Dallas" = Some d1 /\
    add_sentiment_score "Dallas" 1 self1 = (Returns tt, self2) /\
    regions self2 !! "Dallas" = Some d2 /\
    (state d1 = "TRENDING_UP" ->
     state d2 = "MAINTAIN_GOOD" \/ state d2 = "TRENDING_DOWN").
Proof.
  intros self.
  destruct (trend_label_lasts_one_call "Dallas" 1 1 self (region_of self "Dallas"))
    as (self1 & d1 & self2 & d2 & H1 & H2 & H3 & H4 & _ & Hup & _).
  - vm_compute. reflexivity.
  - unfold float_safe. vm_compute. discriminate.
  - unfold float_safe. vm_compute. discriminate.
  - apply scores_safe_check. vm_compute. reflexivity.
  - vm_compute. discriminate.
  - vm_compute. discriminate.
  - exists self1, d1, self2, d2. auto.
Defined.

End TrackerMore.

(** * More on [int / int] *)

Section FloatFacts.

(** [2^e <= n / d], on integers. *)
Definition above (n d e : Z) : Prop := d * 2 ^ Z.max 0 e <= n * 2 ^ Z.max 0 (- e).

Lemma above_shift n d e M :
  - M <= e <= M -> above n d e <-> d * 2 ^ (M + e) <= n * 2 ^ M.
Proof.
  intros HM. unfold above.
  destruct (Z.le_ge_cases 0 e) as [He|He].
  - rewrite (Z.max_r 0 e), (Z.max_l 0 (- e)) by lia.
    rewrite Z.pow_0_r, Z.mul_1_r, (Z.add_comm M e), Z.pow_add_r, Z.mul_assoc by lia.
    assert (0 < 2 ^ M) by (apply Z.pow_pos_nonneg; lia).
    split; intros Hle; nia.
  - rewrite (Z.max_l 0 e), (Z.max_r 0 (- e)) by lia.
    rewrite Z.pow_0_r, Z.mul_1_r.
    replace M with (- e + (M + e)) at 2 by lia.
    rewrite (Z.pow_add_r 2 (- e) (M + e)), Z.mul_assoc by lia.
    assert (0 < 2 ^ (M + e)) by (apply Z.pow_pos_nonneg; lia).
    split; intros Hle; nia.
Qed.

Lemma above_mono n d e e' : 0 <= d -> e <= e' -> above n d e' -> above n d e.
Proof.
  intros Hd Hle Ha.
  set (M := Z.abs e + Z.abs e').
  apply (above_shift n d e' M) in Ha; [|subst M; lia].
  apply (above_shift n d e M); [subst M; lia|].
  etransitivity; [|exact Ha].
  apply Z.mul_le_mono_nonneg_l; [exact Hd|].
  apply Z.pow_le_mono_r; subst M; lia.
Qed.

Lemma above_scale k n d e : 0 < k -> above (k * n) (k * d) e <-> above n d e.
Proof.
  intros Hk. unfold above. rewrite <- !Z.mul_assoc.
  split; intros Hle.
  - apply Z.mul_le_mono_pos_l in Hle; assumption.
  - apply Z.mul_le_mono_pos_l; assumption.
Qed.

Lemma floor_log2_ratio_spec n d :
  0 < n -> 0 < d ->
  above n d (floor_log2_ratio n d) /\ ~ above n d (floor_log2_ratio n d + 1).
Proof.
  intros Hn Hd. unfold floor_log2_ratio.
  destruct (Z.log2_spec n Hn) as [Hn1 Hn2]. destruct (Z.log2_spec d Hd) as [Hd1 Hd2].
  pose proof (Z.log2_nonneg n) as Hln. pose proof (Z.log2_nonneg d) as Hld.
  set (ln := Z.log2 n) in *. set (ld := Z.log2 d) in *.
  set (M := ln + ld + 1).
  assert (HM : 0 < 2 ^ M) by (apply Z.pow_pos_nonneg; subst M; lia).
  destruct (Z.ltb_spec (n * 2 ^ Z.max 0 (- (ln - ld))) (d * 2 ^ Z.max 0 (ln - ld)))
    as [Hlt|Hge].
  - split.
    + apply (above_shift n d (ln - ld - 1) M); [subst M; lia|].
      apply Z.le_trans with (2 ^ (ld + 1) * 2 ^ (M + (ln - ld - 1))).
      * apply Z.mul_le_mono_nonneg_r; [apply Z.pow_nonneg; lia|lia].
      * rewrite <- Z.pow_add_r by (subst M; lia).
        replace (ld + 1 + (M + (ln - ld - 1))) with (ln + M) by lia.
        rewrite Z.pow_add_r by (subst M; lia).
        apply Z.mul_le_mono_nonneg_r; [lia|exact Hn1].
    + replace (ln - ld - 1 + 1) with (ln - ld) by lia. unfold above. lia.
  - split; [unfold above; lia|].
    intros Ha. apply (above_shift n d (ln - ld + 1) M) in Ha; [|subst M; lia].
    assert (n * 2 ^ M < d * 2 ^ (M + (ln - ld + 1))); [|lia].
    apply Z.lt_le_trans with (2 ^ (ln + 1) * 2 ^ M).
    + apply Z.mul_lt_mono_pos_r; assumption.
    + rewrite <- Z.pow_add_r by (subst M; lia).
      replace (ln + 1 + M) with (ld + (M + (ln - ld + 1))) by lia.
      rewrite Z.pow_add_r by (subst M; lia).
      apply Z.mul_le_mono_nonneg_r; [apply Z.pow_nonneg; lia|exact Hd1].
Qed.

Lemma floor_log2_ratio_scale k n d :
  0 < k -> 0 < n -> 0 < d ->
  floor_log2_ratio (k * n) (k * d) = floor_log2_ratio n d.
Proof.
  intros Hk Hn Hd.
  destruct (floor_log2_ratio_spec n d Hn Hd) as [A1 A2].
  destruct (floor_log2_ratio_spec (k * n) (k * d) ltac:(nia) ltac:(nia)) as [B1 B2].
  rewrite above_scale in B1, B2 by exact Hk.
  set (e := floor_log2_ratio n d) in *.
  set (e' := floor_log2_ratio (k * n) (k * d)) in *.
  destruct (Z.lt_trichotomy e' e) as [Hlt|[Heq|Hgt]]; [|exact Heq|].
  - exfalso. apply B2. apply (above_mono n d (e' + 1) e); [lia|lia|exact A1].
  - exfalso. apply A2. apply (above_mono n d (e + 1) e'); [lia|lia|exact B1].
Qed.

Lemma rne_div_scale k n d : 0 < k -> 0 < d -> rne_div (k * n) (k * d) = rne_div n d.
Proof.
  intros Hk Hd. unfold rne_div.
  rewrite Z.div_mul_cancel_l, Z.mul_mod_distr_l by lia.
  assert (E1 : (2 * (k * (n mod d)) <? k * d) = (2 * (n mod d) <? d)).
  { destruct (Z.ltb_spec (2 * (n mod d)) d); [apply Z.ltb_lt|apply Z.ltb_ge]; nia. }
  assert (E2 : (k * d <? 2 * (k * (n mod d))) = (d <? 2 * (n mod d))).
  { destruct (Z.ltb_spec d (2 * (n mod d))); [apply Z.ltb_lt|apply Z.ltb_ge]; nia. }
  rewrite E1, E2. reflexivity.
Qed.

Lemma round_binary64_scale k n d :
  0 < k -> 0 < n -> 0 < d -> round_binary64 (k * n) (k * d) = round_binary64 n d.
Proof.
  intros Hk Hn Hd. unfold round_binary64.
  rewrite floor_log2_ratio_scale by assumption.
  rewrite <- !Z.mul_assoc, rne_div_scale; [reflexivity|exact Hk|].
  apply Z.mul_pos_pos; [exact Hd|]. apply Z.pow_pos_nonneg; lia.
Qed.

(** The quotient computed by [/] depends on the ratio only. *)
Lemma truediv_scale k a b : 0 < k -> truediv (k * a) (k * b) = truediv a b.
Proof.
  intros Hk. unfold truediv.
  destruct (Z.eqb_spec b 0) as [->|Hb].
  { rewrite Z.mul_0_r. reflexivity. }
  destruct (Z.eqb_spec (k * b) 0) as [|_]; [nia|].
  destruct (Z.eqb_spec a 0) as [->|Ha].
  { rewrite Z.mul_0_r. reflexivity. }
  destruct (Z.eqb_spec (k * a) 0) as [|_]; [nia|].
  rewrite !Z.abs_mul, (Z.abs_eq k) by lia.
  rewrite round_binary64_scale by lia.
  rewrite !Z.sgn_mul, (Z.sgn_pos k) by exact Hk.
  rewrite !Z.mul_1_l. reflexivity.
Qed.

Lemma sum_replicate n c : sum (replicate n c) = Z.of_nat n * c.
Proof.
  induction n as [|n IH]; [reflexivity|].
  cbn [replicate]. rewrite sum_cons, IH. lia.
Qed.

Lemma mean_replicate n c : (0 < n)%nat -> mean (replicate n c) = truediv c 1.
Proof.
  intros Hn. unfold mean, len. rewrite sum_replicate, length_replicate.
  rewrite <- (Z.mul_1_r (Z.of_nat n)) at 2. apply truediv_scale. lia.
Qed.

End FloatFacts.

Section SteadyScores.

Lemma gt_irrefl x : gt x x = false.
Proof.
  unfold gt. apply negb_false_iff. apply Qle_bool_iff. apply Qle_refl.
Qed.

Lemma mean_last_n_constant k c (fed : list Z) :
  (0 < k)%nat -> fed <> [] -> Forall (eq c) fed ->
  mean (last_n k fed) = truediv c 1.
Proof.
  intros Hk Hne Hall. unfold last_n.
  assert (Hrep : drop (length fed - k) fed
                 = replicate (length (drop (length fed - k) fed)) c).
  { symmetry. apply replicate_as_Forall. split; [reflexivity|].
    apply Forall_drop. exact Hall. }
  rewrite Hrep. apply mean_replicate. rewrite length_drop.
  destruct fed; [contradiction|]. simpl length. lia.
Qed.

(** What holds of a region fed the same score [c] again and again. *)
Definition steady (c : Z) (d : region_data) (fed : list Z) : Prop :=
  holds_recent d fed /\
  (Forall (eq c) fed ->
   ((100 <= length fed)%nat -> was_above d = Some false) /\
   ((100 < length fed)%nat ->
    state d = "MAINTAIN_POOR" /\ short_term_avg d = long_term_avg d)).

Lemma steady_step c d fed score a b :
  steady c d fed ->
  mean (fifo_push SHORT_TERM_WINDOW score (short_term_scores d)) = Returns a ->
  mean (fifo_push LONG_TERM_WINDOW score (long_term_scores d)) = Returns b ->
  steady c (score_added score a b d) (fed ++ [score]).
Proof.
  intros [Hrec Hst] Ha Hb. split; [apply holds_recent_step; exact Hrec|].
  intros Hall. apply Forall_app in Hall as [Hfed Hscore].
  destruct (Hst Hfed) as [Hwa Hpoor]. destruct Hrec as (Hs & Hl & _ & _).
  rewrite Hs in Ha. rewrite Hl in Hb.
  change SHORT_TERM_WINDOW with (Z.of_nat 10) in Ha.
  change LONG_TERM_WINDOW with (Z.of_nat 100) in Hb.
  rewrite fifo_push_last_n in Ha, Hb.
  assert (Hall : Forall (eq c) (fed ++ [score])) by (apply Forall_app; auto).
  rewrite (mean_last_n_constant 10 c) in Ha; [|lia|destruct fed; discriminate|exact Hall].
  rewrite (mean_last_n_constant 100 c) in Hb; [|lia|destruct fed; discriminate|exact Hall].
  assert (a = b) as <- by congruence.
  pose proof (score_added_label score a a d) as Hlab. cbv zeta in Hlab.
  destruct (score_added_fields score a a d) as (_ & _ & E3 & E4 & _).
  rewrite gt_irrefl in Hlab.
  assert (Hlen : len (long_term_scores d) = Z.of_nat (Nat.min (length fed) 100)).
  { rewrite Hl. unfold len, last_n. rewrite length_drop. lia. }
  rewrite Hlen in Hlab. unfold LONG_TERM_WINDOW in Hlab.
  rewrite length_app. cbn [length].
  destruct (Z.ltb_spec (Z.of_nat (Nat.min (length fed) 100) + 1) 100) as [Hlt|Hge].
  - split; intros; lia.
  - destruct Hlab as [W S]. split; [intros _; exact W|].
    intros Hn. rewrite S, (Hwa ltac:(lia)), E3, E4. split; reflexivity.
Qed.

(** X6.  The comparison of the two averages is strict, so a region fed the
    same score again and again, whether -1, 0 or +1 (or any other int whose
    mean fits a double), has equal averages and is labelled MAINTAIN_POOR
    from call 101 onward. *)
Theorem steady_scores_are_labelled_poor
    (region : string) (c : Z) (n : nat) (self : HappinessTracker) :
  regions self !! region = None ->
  float_safe c ->
  (100 < n)%nat ->
  exists self' d,
    add_scores region (replicate n c) self = (Returns tt, self') /\
    regions self' !! region = Some d /\
    short_term_avg d = long_term_avg d /\
    state d = "MAINTAIN_POOR".
Proof.
  intros Hnone Hc Hn.
  assert (Hnew : region_of self region = new_region)
    by (unfold region_of; rewrite Hnone; reflexivity).
  destruct (add_scores_invariant (steady c) region) with (scores := replicate n c)
    (self := self) (fed := @nil Z) as (self' & Hrun & _ & Hrec & Hst).
  - intros d fed score a b _ _ HI Ha Hb. apply steady_step; assumption.
  - apply Forall_replicate. exact Hc.
  - rewrite Hnew. apply after_calls_new_region.
  - rewrite Hnew. split.
    + unfold holds_recent. simpl. repeat split; try reflexivity; lia.
    + intros _. simpl. split; intros; lia.
  - destruct (add_scores_after_calls region (replicate n c) 0 self)
      as (self2 & Hrun2 & _ & Hsome).
    { lia. } { apply Forall_replicate. exact Hc. }
    { rewrite Hnew. apply after_calls_new_region. }
    rewrite Hrun in Hrun2. injection Hrun2 as <-.
    destruct Hsome as [d Hd]. { destruct n; [lia|discriminate]. }
    assert (Hr : region_of self' region = d) by (unfold region_of; rewrite Hd; reflexivity).
    rewrite Hr in Hst. simpl in Hst.
    destruct (Hst (Forall_replicate_eq _ _)) as [_ Hpoor].
    rewrite length_replicate in Hpoor. destruct (Hpoor Hn) as [Hstate Havg].
    exists self', d. auto.
Qed.

Lemma steady_scores_are_labelled_poor_witness :
  exists self' d,
    add_scores "Dallas" (replicate 150 1) __init__ = (Returns tt, self') /\
    regions self' !! "Dallas" = Some d /\
    state d = "MAINTAIN_POOR".
Proof.
  destruct (steady_scores_are_labelled_poor "Dallas" 1 150 __init__)
    as (self' & d & Hrun & Hd & _ & Hstate).
  - reflexivity.
  - unfold float_safe. vm_compute. discriminate.
  - lia.
  - exists self', d. auto.
Defined.

End SteadyScores.

(** * Sentiment scores *)

Section SentimentScores.

Lemma rne_div_nonneg n d : 0 <= n -> 0 < d -> 0 <= rne_div n d.
Proof.
  intros Hn Hd. unfold rne_div.
  assert (0 <= n / d) by (apply Z.div_pos; assumption).
  destruct (_ <? _); [assumption|]. destruct (_ <? _); [lia|].
  destruct (Z.even _); lia.
Qed.

(** A quotient of magnitude at most [B], a small int, rounds to a double of
    magnitude at most [B]. *)
Lemma round_binary64_le n d B :
  0 < n -> 0 < d -> 0 < B <= 2 ^ 52 -> n <= d * B ->
  let '(m, s) := round_binary64 n d in
  s <= 0 /\ 0 <= m <= B * 2 ^ (- s) /\ overflows m s = false.
Proof.
  intros Hn Hd HB Hle. unfold round_binary64.
  assert (He : floor_log2_ratio n d <= 52).
  { apply floor_log2_ratio_le; try lia. nia. }
  set (e := floor_log2_ratio n d) in *.
  set (s := Z.max (e - (DBL_MANT_DIG - 1)) DBL_MIN_UNIT_EXP).
  assert (Hs : DBL_MIN_UNIT_EXP <= s <= 0).
  { subst s. unfold DBL_MANT_DIG, DBL_MIN_UNIT_EXP. lia. }
  rewrite (Z.max_r 0 (- s)), (Z.max_l 0 s) by lia.
  rewrite Z.pow_0_r, Z.mul_1_r.
  assert (Hp : 0 < 2 ^ (- s)) by (apply Z.pow_pos_nonneg; lia).
  set (m := rne_div _ _).
  assert (Hm : 0 <= m <= B * 2 ^ (- s)).
  { subst m. split; [apply rne_div_nonneg; nia|].
    apply rne_div_le; [exact Hd|]. nia. }
  split; [lia|]. split; [exact Hm|].
  unfold overflows. apply Z.leb_gt.
  apply Z.le_lt_trans with (2 ^ 52 * 2 ^ (- s) * 2 ^ (s - DBL_MIN_UNIT_EXP)).
  - apply Z.mul_le_mono_nonneg_r; [apply Z.pow_nonneg; lia|]. nia.
  - rewrite <- !Z.pow_add_r by lia.
    apply Z.pow_lt_mono_r; unfold DBL_MAX_EXP, DBL_MIN_UNIT_EXP in *; lia.
Qed.

Lemma dyadic_value m s :
  s <= 0 -> (dyadic m s == Qmake m (Z.to_pos (2 ^ (- s))))%Q.
Proof.
  intros Hs. unfold dyadic. rewrite Qred_correct.
  destruct (Z.leb_spec 0 s); [|reflexivity].
  assert (s = 0) as -> by lia. simpl. rewrite Z.mul_1_r. reflexivity.
Qed.

Lemma dyadic_bounds m s B :
  s <= 0 -> - (B * 2 ^ (- s)) <= m <= B * 2 ^ (- s) ->
  (inject_Z (- B) <= dyadic m s <= inject_Z B)%Q.
Proof.
  intros Hs Hm. rewrite dyadic_value by exact Hs.
  assert (Hp : 0 < 2 ^ (- s)) by (apply Z.pow_pos_nonneg; lia).
  unfold Qle. simpl. rewrite Z2Pos.id by exact Hp. lia.
Qed.

Lemma truediv_bounded a b B :
  b <> 0 -> 0 < B <= 2 ^ 52 -> Z.abs a <= Z.abs b * B ->
  exists q, truediv a b = Returns q /\ (inject_Z (- B) <= q <= inject_Z B)%Q.
Proof.
  intros Hb HB Hle. unfold truediv.
  destruct (Z.eqb_spec b 0) as [|_]; [contradiction|].
  destruct (Z.eqb_spec a 0) as [|Ha].
  { exists 0%Q. split; [reflexivity|]. unfold Qle. simpl. lia. }
  pose proof (round_binary64_le (Z.abs a) (Z.abs b) B ltac:(lia) ltac:(lia) HB Hle) as Hr.
  destruct (round_binary64 (Z.abs a) (Z.abs b)) as [m s].
  destruct Hr as (Hs & Hm & ->).
  eexists. split; [reflexivity|].
  apply dyadic_bounds; [exact Hs|].
  destruct (Z.sgn_spec a) as [[_ ->]|[[_ ->]|[_ ->]]];
    destruct (Z.sgn_spec b) as [[_ ->]|[[_ ->]|[_ ->]]]; lia.
Qed.

(** The scores that [main] feeds to the tracker. *)
Definition sentiment (z : Z) : Prop := -1 <= z <= 1.

(** A number between -1 and 1. *)
Definition in_unit (x : num) : Prop := (inject_Z (-1) <= num_val x <= inject_Z 1)%Q.

Lemma sentiment_float_safe z : sentiment z -> float_safe z.
Proof.
  unfold sentiment, float_safe. intros Hz.
  apply Z.le_trans with 1; [lia|]. vm_compute. discriminate.
Qed.

Lemma sum_sentiment l : Forall sentiment l -> Z.abs (sum l) <= len l.
Proof.
  induction 1 as [|z l Hz _ IH].
  - unfold sum, len. simpl. lia.
  - rewrite sum_cons. unfold len in *. simpl length. unfold sentiment in Hz. lia.
Qed.

Lemma mean_sentiment l a :
  l <> [] -> Forall sentiment l -> mean l = Returns a -> in_unit (Float a).
Proof.
  intros Hne Hl Ha. unfold mean in Ha.
  destruct (truediv_bounded (sum l) (len l) 1) as (q & Hq & Hb).
  - destruct l; [contradiction|]. unfold len. simpl. lia.
  - split; [lia|]. vm_compute. discriminate.
  - rewrite (Z.abs_eq (len l)) by (unfold len; lia). rewrite Z.mul_1_r.
    apply sum_sentiment. exact Hl.
  - rewrite Ha in Hq. injection Hq as ->. exact Hb.
Qed.

(** What holds of a region that was only fed sentiment scores. *)
Definition in_range (d : region_data) : Prop :=
  Forall sentiment (short_term_scores d) /\
  Forall sentiment (long_term_scores d) /\
  in_unit (short_term_avg d) /\
  in_unit (long_term_avg d) /\
  Forall in_unit (history d).

Lemma in_range_new_region : in_range new_region.
Proof.
  unfold in_range, in_unit. simpl.
  repeat split; try constructor; unfold Qle; simpl; lia.
Qed.

Lemma in_range_step d score a b :
  sentiment score -> in_range d ->
  mean (fifo_push SHORT_TERM_WINDOW score (short_term_scores d)) = Returns a ->
  mean (fifo_push LONG_TERM_WINDOW score (long_term_scores d)) = Returns b ->
  in_range (score_added score a b d).
Proof.
  intros Hz (Hs & Hl & _ & _ & Hh) Ha Hb.
  destruct (score_added_fields score a b d) as (E1 & E2 & E3 & E4 & E5).
  unfold in_range. rewrite E1, E2, E3, E4, E5.
  assert (Ia : in_unit (Float a)).
  { eapply mean_sentiment; [|
      |exact Ha]; [apply fifo_push_nonempty; reflexivity|apply Forall_fifo_push; assumption]. }
  assert (Ib : in_unit (Float b)).
  { eapply mean_sentiment; [|
      |exact Hb]; [apply fifo_push_nonempty; reflexivity|apply Forall_fifo_push; assumption]. }
  split; [apply Forall_fifo_push; assumption|].
  split; [apply Forall_fifo_push; assumption|].
  split; [exact Ia|]. split; [exact Ib|].
  apply Forall_fifo_push; assumption.
Qed.

(** X7.  Fed with scores among -1, 0 and +1, a region that did not exist
    never makes a call raise, holds only such scores, and both averages and
    every point of the history are between -1 and 1. *)
Theorem sentiment_scores_keep_averages_in_range
    (region : string) (scores : list Z) (self : HappinessTracker) :
  regions self !! region = None ->
  Forall sentiment scores ->
  exists self',
    add_scores region scores self = (Returns tt, self') /\
    let d := region_of self' region in
    Forall sentiment (short_term_scores d) /\
    Forall sentiment (long_term_scores d) /\
    in_unit (short_term_avg d) /\
    in_unit (long_term_avg d) /\
    Forall in_unit (history d).
Proof.
  intros Hnone Hs.
  assert (Hnew : region_of self region = new_region)
    by (unfold region_of; rewrite Hnone; reflexivity).
  destruct (add_scores_invariant
              (fun d fed => Forall sentiment fed -> in_range d) region)
    with (scores := scores) (self := self) (fed := @nil Z)
    as (self' & Hrun & _ & Hrange).
  - intros d fed score a b _ _ HI Ha Hb Hall.
    apply Forall_app in Hall as [Hfed Hscore].
    apply in_range_step; [|apply HI; exact Hfed|exact Ha|exact Hb].
    inversion Hscore; assumption.
  - eapply Forall_impl; [exact Hs|]. apply sentiment_float_safe.
  - rewrite Hnew. apply after_calls_new_region.
  - intros _. rewrite Hnew. apply in_range_new_region.
  - exists self'. split; [exact Hrun|]. apply Hrange. exact Hs.
Qed.

Lemma sentiment_scores_keep_averages_in_range_witness :
  exists self',
    add_scores "Dallas" [1; -1; -1; 0; 1] __init__ = (Returns tt, self') /\
    Forall in_unit (history (region_of self' "Dallas")).
Proof.
  destruct (sentiment_scores_keep_averages_in_range "Dallas" [1; -1; -1; 0; 1] __init__)
    as (self' & Hrun & _ & _ & _ & _ & Hh).
  - reflexivity.
  - repeat constructor; discriminate.
  - exists self'. split; [exact Hrun|exact Hh].
Defined.

End SentimentScores.

(** * The console graph ([print_happiness_graphs]) *)

Module Graph.

(** A float that may have overflowed: [int / int] never gives an infinity,
    but [float * int] does instead of raising. *)
Inductive float :=
| Finite (q : Q)
| Inf (negative : bool).

(** The double nearest to a rational. *)
Definition round (q : Q) : float :=
  if Qnum q =? 0 then Finite 0
  else
    let '(m, s) := round_binary64 (Z.abs (Qnum q)) (Zpos (Qden q)) in
    if overflows m s then Inf (Qnum q <? 0)
    else Finite (dyadic (Z.sgn (Qnum q) * m) s).

(** [x + k], [x / k] and [x * k] for a float [x] and a positive int literal
    [k] that is a double itself (1, 2 and 40 below). *)
Definition fadd (x : float) (k : Z) : float :=
  match x with
  | Finite q => round (q + inject_Z k)
  | Inf b => Inf b
  end.
Definition fdiv (x : float) (k : Z) : float :=
  match x with
  | Finite q => round (q / inject_Z k)
  | Inf b => Inf b
  end.
Definition fmul (x : float) (k : Z) : float :=
  match x with
  | Finite q => round (q * inject_Z k)
  | Inf b => Inf b
  end.

(** [int(x)]: truncation toward zero, OverflowError on an infinity. *)
Definition int (x : float) : outcome Z :=
  match x with
  | Finite q => Returns (Z.quot (Qnum q) (Zpos (Qden q)))
  | Inf _ => Raises OverflowError
  end.

Definition GRAPH_WIDTH : Z := 40.
Definition POSITIVE_CHAR : string := "█".
Definition NEGATIVE_CHAR : string := "░".
Definition ZERO_CHAR : string := "─".

(** [(value + 1) / 2]: int arithmetic and true division on an int, float
    arithmetic on a float. *)
Definition half_shifted (value : num) : outcome float :=
  match value with
  | Int z => match truediv (z + 1) 2 with
             | Returns q => Returns (Finite q)
             | Raises e => Raises e
             end
  | Float q => Returns (fdiv (fadd (Finite q) 1) 2)
  end.

(** [scale_value_to_graph(value)] *)
Definition scale_value_to_graph (value : num) : outcome Z :=
  match half_shifted value with
  | Raises e => Raises e
  | Returns h =>
      match int (fmul h GRAPH_WIDTH) with
      | Raises e => Raises e
      | Returns scaled => Returns (Z.max 0 (Z.min scaled GRAPH_WIDTH))
      end
  end.

(** [range(a, b)] *)
Definition range (a b : Z) : list Z :=
  (fun k => a + Z.of_nat k) <$> seq 0 (Z.to_nat (b - a)).

(** [l[i] = x]: a negative index counts from the end, an index outside the
    list raises IndexError. *)
Definition setitem {A} (i : Z) (x : A) : M (list A) unit :=
  fun l =>
    let j := if i <? 0 then i + len l else i in
    if (0 <=? j) && (j <? len l) then (Returns tt, <[Z.to_nat j := x]> l)
    else (Raises IndexError, l).

(** The cells of one printed line: the body of [for val in data["history"]]
    up to the [join]. *)
Definition graph_line (zero_point : Z) (val : num) : outcome (list string) :=
  let graph_line := replicate (Z.to_nat (GRAPH_WIDTH + 1)) " " in
  match scale_value_to_graph val with
  | Raises e => Raises e
  | Returns pos =>
      let fill : M (list string) unit :=
        (if zero_point <? pos then
           foldM (fun _ i => setitem i POSITIVE_CHAR) tt (range zero_point (pos + 1))
         else if pos <? zero_point then
           foldM (fun _ i => setitem i NEGATIVE_CHAR) tt (range pos zero_point)
         else mret tt);;
        setitem zero_point ZERO_CHAR in
      match fill graph_line with
      | (Returns _, l) => Returns l
      | (Raises e, _) => Raises e
      end
  end.

(** The lines printed for one region, each as the joined cells; [None] for
    a region without history, which the loop skips. *)
Fixpoint graph_lines (zero_point : Z) (history : list num) : outcome (list string) :=
  match history with
  | [] => Returns []
  | val :: rest =>
      match graph_line zero_point val with
      | Raises e => Raises e
      | Returns l =>
          match graph_lines zero_point rest with
          | Raises e => Raises e
          | Returns ls => Returns (String.concat "" l :: ls)
          end
      end
  end.

Definition region_graph (data : region_data) : outcome (option (list string)) :=
  if bool_decide (history data = []) then Returns None
  else
    match scale_value_to_graph (Int 0) with
    | Raises e => Raises e
    | Returns zero_point =>
        match graph_lines zero_point (history data) with
        | Raises e => Raises e
        | Returns ls => Returns (Some ls)
        end
    end.

End Graph.

Section GraphFacts.
Import Graph.

Lemma round_truediv q :
  round q = match truediv (Qnum q) (Zpos (Qden q)) with
            | Returns r => Finite r
            | Raises _ => Inf (Qnum q <? 0)
            end.
Proof.
  unfold round, truediv.
  change (Z.pos (Qden q) =? 0) with false. cbv iota.
  change (Z.abs (Z.pos (Qden q))) with (Z.pos (Qden q)).
  change (Z.sgn (Z.pos (Qden q))) with 1.
  destruct (Qnum q =? 0); [reflexivity|].
  destruct (round_binary64 _ _) as [m s]. rewrite Z.mul_1_r.
  destruct (overflows m s); reflexivity.
Qed.

Lemma round_bounded q B :
  0 < B <= 2 ^ 52 -> (inject_Z (- B) <= q <= inject_Z B)%Q ->
  exists r, round q = Finite r /\ (inject_Z (- B) <= r <= inject_Z B)%Q.
Proof.
  intros HB [Hlo Hhi]. rewrite round_truediv.
  destruct (truediv_bounded (Qnum q) (Zpos (Qden q)) B) as (r & -> & Hr);
    [discriminate|exact HB| |exists r; auto].
  unfold Qle in Hlo, Hhi. simpl in Hlo, Hhi. lia.
Qed.

Ltac q_literals :=
  unfold GRAPH_WIDTH, inject_Z in *;
  change (- (1))%Z with (-1)%Z in *;
  change (- (2))%Z with (-2)%Z in *;
  change (- (40))%Z with (-40)%Z in *.

Lemma scale_in_unit val :
  in_unit val -> exists pos, scale_value_to_graph val = Returns pos /\ 0 <= pos <= 40.
Proof.
  intros Hval. unfold scale_value_to_graph.
  assert (H52 : 40 <= 2 ^ 52) by (vm_compute; discriminate).
  assert (Hhalf : exists y, half_shifted val = Returns (Finite y)
                            /\ (inject_Z (-1) <= y <= inject_Z 1)%Q).
  { destruct val as [z|q]; unfold in_unit in Hval; simpl in Hval.
    - unfold half_shifted.
      destruct (truediv_bounded (z + 1) 2 1) as (y & -> & Hy);
        [discriminate|lia| |exists y; auto].
      unfold Qle in Hval. simpl in Hval. lia.
    - unfold half_shifted, fadd, fdiv.
      destruct (round_bounded (q + inject_Z 1) 2) as (x & -> & Hx); [lia| |].
      { q_literals. lra. }
      destruct (round_bounded (x / inject_Z 2) 1) as (y & -> & Hy); [lia| |].
      { q_literals. unfold Qdiv. change (/ (2 # 1))%Q with (1 # 2)%Q. lra. }
      exists y. auto. }
  destruct Hhalf as (y & -> & Hy). unfold fmul.
  destruct (round_bounded (y * inject_Z GRAPH_WIDTH) 40) as (w & -> & Hw); [lia| |].
  { q_literals. lra. }
  simpl. eexists. split; [reflexivity|]. unfold GRAPH_WIDTH. lia.
Qed.

Lemma setitem_run {A} (i : Z) (x : A) (l : list A) :
  0 <= i < len l -> setitem i x l = (Returns tt, <[Z.to_nat i := x]> l).
Proof.
  intros Hi. unfold setitem.
  destruct (Z.ltb_spec i 0); [lia|].
  destruct (Z.leb_spec 0 i); [|lia]. destruct (Z.ltb_spec i (len l)); [|lia].
  reflexivity.
Qed.

(** A loop of assignments over [range(a, a + n)] inside the list. *)
Lemma fill_run (c : string) (n : nat) : forall (a : Z) (l : list string),
  0 <= a -> a + Z.of_nat n <= len l ->
  exists l',
    foldM (fun _ i => setitem i c) tt ((fun k => a + Z.of_nat k) <$> seq 0 n) l
      = (Returns tt, l') /\
    length l' = length l /\
    forall j : nat,
      l' !! j = if bool_decide (a <= Z.of_nat j < a + Z.of_nat n) then Some c else l !! j.
Proof.
  induction n as [|n IH]; intros a l Ha Hb.
  - exists l. split; [reflexivity|]. split; [reflexivity|]. intros j.
    rewrite bool_decide_eq_false_2 by lia. reflexivity.
  - cbn [seq fmap list_fmap foldM]. unfold bind.
    rewrite Z.add_0_r, setitem_run by lia.
    rewrite <- fmap_S_seq, <- list_fmap_compose.
    destruct (IH (a + 1) (<[Z.to_nat a := c]> l)) as (l' & Hrun & Hlen & Hl').
    { lia. } { unfold len in *. rewrite length_insert. lia. }
    exists l'. split.
    { rewrite <- Hrun. f_equal. apply list_fmap_ext. intros _ k _. simpl. lia. }
    split; [rewrite Hlen; apply length_insert|].
    intros j. rewrite Hl'.
    destruct (decide (j = Z.to_nat a)) as [->|Hne].
    + rewrite bool_decide_eq_false_2, bool_decide_eq_true_2 by lia.
      apply list_lookup_insert_eq. unfold len in Hb. lia.
    + rewrite list_lookup_insert_ne by congruence.
      destruct (decide (a <= Z.of_nat j < a + Z.of_nat (S n))).
      * rewrite !bool_decide_eq_true_2 by lia. reflexivity.
      * rewrite !bool_decide_eq_false_2 by lia. reflexivity.
Qed.

Lemma range_as_seq a b :
  a <= b -> range a b = (fun k => a + Z.of_nat k) <$> seq 0 (Z.to_nat (b - a)).
Proof. reflexivity. Qed.

(** The cell that a line shows at index [i] for the scaled value [pos]. *)
Definition cell (pos : Z) (i : nat) : string :=
  if bool_decide (Z.of_nat i = 20) then ZERO_CHAR
  else if bool_decide (20 < Z.of_nat i <= pos) then POSITIVE_CHAR
  else if bool_decide (pos <= Z.of_nat i < 20) then NEGATIVE_CHAR
  else " ".

Lemma graph_line_run val pos :
  scale_value_to_graph val = Returns pos ->
  0 <= pos <= 40 /\
  exists line,
    graph_line 20 val = Returns line /\
    length line = 41%nat /\
    forall i : nat, (i < 41)%nat -> line !! i = Some (cell pos i).
Proof.
  intros Hpos.
  assert (Hrange : 0 <= pos <= 40).
  { unfold scale_value_to_graph in Hpos.
    destruct (half_shifted val) as [h|]; [|discriminate].
    destruct (int _) as [scaled|]; [|discriminate].
    injection Hpos as <-. unfold GRAPH_WIDTH. lia. }
  split; [exact Hrange|].
  unfold graph_line. rewrite Hpos.
  set (blank := replicate (Z.to_nat (GRAPH_WIDTH + 1)) " ").
  assert (Hblank : length blank = 41%nat) by reflexivity.
  assert (Hbl : forall j : nat, (j < 41)%nat -> blank !! j = Some " ").
  { intros j Hj. apply lookup_replicate_2. exact Hj. }
  unfold mbind, M_bind, bind, mret, M_ret, ret.
  destruct (Z.ltb_spec 20 pos) as [Hgt|Hle].
  - unfold range.
    destruct (fill_run POSITIVE_CHAR (Z.to_nat (pos + 1 - 20)) 20 blank)
      as (l' & -> & Hlen & Hl'); [lia|unfold len; rewrite Hblank; lia|].
    rewrite setitem_run by (unfold len; rewrite Hlen, Hblank; lia).
    eexists. split; [reflexivity|]. split; [rewrite length_insert; lia|].
    intros i Hi. unfold cell.
    destruct (decide (i = 20%nat)) as [->|Hne].
    + rewrite list_lookup_insert_eq by lia. reflexivity.
    + rewrite list_lookup_insert_ne by (simpl; lia). rewrite Hl'.
      rewrite (bool_decide_eq_false_2 (Z.of_nat i = 20)) by lia.
      destruct (decide (20 < Z.of_nat i <= pos)).
      * rewrite !bool_decide_eq_true_2 by lia. reflexivity.
      * rewrite bool_decide_eq_false_2 by lia.
        rewrite (bool_decide_eq_false_2 (20 < Z.of_nat i <= pos)) by lia.
        rewrite bool_decide_eq_false_2 by lia. apply Hbl. exact Hi.
  - destruct (Z.ltb_spec pos 20) as [Hlt|Hge].
    + unfold range.
      destruct (fill_run NEGATIVE_CHAR (Z.to_nat (20 - pos)) pos blank)
        as (l' & -> & Hlen & Hl'); [lia|unfold len; rewrite Hblank; lia|].
      rewrite setitem_run by (unfold len; rewrite Hlen, Hblank; lia).
      eexists. split; [reflexivity|]. split; [rewrite length_insert; lia|].
      intros i Hi. unfold cell.
      destruct (decide (i = 20%nat)) as [->|Hne].
      * rewrite list_lookup_insert_eq by lia. reflexivity.
      * rewrite list_lookup_insert_ne by (simpl; lia). rewrite Hl'.
        rewrite (bool_decide_eq_false_2 (Z.of_nat i = 20)) by lia.
        rewrite (bool_decide_eq_false_2 (20 < Z.of_nat i <= pos)) by lia.
        destruct (decide (pos <= Z.of_nat i < 20)).
        -- rewrite !bool_decide_eq_true_2 by lia. reflexivity.
        -- rewrite !bool_decide_eq_false_2 by lia. apply Hbl. exact Hi.
    + rewrite setitem_run by (unfold len; rewrite Hblank; lia).
      eexists. split; [reflexivity|]. split; [rewrite length_insert; lia|].
      intros i Hi. unfold cell.
      destruct (decide (i = 20%nat)) as [->|Hne].
      * rewrite list_lookup_insert_eq by lia. reflexivity.
      * rewrite list_lookup_insert_ne by (simpl; lia).
        rewrite !bool_decide_eq_false_2 by lia. apply Hbl. exact Hi.
Qed.

Lemma graph_lines_run history :
  Forall in_unit history ->
  exists ls, graph_lines 20 history = Returns ls /\ length ls = length history.
Proof.
  induction 1 as [|val rest Hval _ (ls & Hls & Hlen)].
  - exists []. split; reflexivity.
  - destruct (scale_in_unit val Hval) as (pos & Hpos & _).
    destruct (graph_line_run val pos Hpos) as (_ & line & Hline & _).
    cbn [graph_lines]. rewrite Hline, Hls.
    eexists. split; [reflexivity|]. simpl. rewrite Hlen. reflexivity.
Qed.

(** X8.  The zero point of the graph is cell 20.  Whenever a value can be
    scaled, its position is between 0 and 40 and its line is drawn without
    an IndexError: 41 cells, the zero mark in cell 20, positive marks in the
    cells after 20 up to the position, negative marks in the cells from
    the position up to 20, blanks elsewhere. *)
Theorem graph_line_shape (val : num) (pos : Z) :
  scale_value_to_graph val = Returns pos ->
  scale_value_to_graph (Int 0) = Returns 20 /\
  0 <= pos <= GRAPH_WIDTH /\
  exists line,
    graph_line 20 val = Returns line /\
    length line = 41%nat /\
    line !! 20%nat = Some ZERO_CHAR /\
    (forall i : nat, 20 < Z.of_nat i <= pos -> line !! i = Some POSITIVE_CHAR) /\
    (forall i : nat, pos <= Z.of_nat i < 20 -> line !! i = Some NEGATIVE_CHAR) /\
    (forall i : nat, (i < 41)%nat ->
       ~ 20 <= Z.of_nat i <= pos -> ~ pos <= Z.of_nat i <= 20 -> line !! i = Some " ").
Proof.
  intros Hpos. split; [vm_compute; reflexivity|].
  destruct (graph_line_run val pos Hpos) as (Hrange & line & Hline & Hlen & Hcells).
  split; [exact Hrange|]. exists line.
  split; [exact Hline|]. split; [exact Hlen|].
  split; [apply (Hcells 20%nat); lia|].
  split; [|split].
  - intros i Hi. rewrite Hcells by lia. unfold cell.
    rewrite bool_decide_eq_false_2, bool_decide_eq_true_2 by lia. reflexivity.
  - intros i Hi. rewrite Hcells by lia. unfold cell.
    rewrite bool_decide_eq_false_2 by lia.
    rewrite bool_decide_eq_false_2, bool_decide_eq_true_2 by lia. reflexivity.
  - intros i Hi H1 H2. rewrite Hcells by lia. unfold cell.
    rewrite !bool_decide_eq_false_2 by lia. reflexivity.
Qed.

Lemma graph_line_shape_witness :
  exists line,
    graph_line 20 (Float (Qmake 1 2)) = Returns line /\
    line !! 20%nat = Some ZERO_CHAR /\
    line !! 30%nat = Some POSITIVE_CHAR /\
    line !! 31%nat = Some " ".
Proof.
  destruct (graph_line_shape (Float (Qmake 1 2)) 30)
    as (_ & _ & line & Hline & _ & Hzero & Hpos & _ & Hblank).
  - vm_compute. reflexivity.
  - exists line. split; [exact Hline|]. split; [exact Hzero|].
    split; [apply Hpos; lia|apply Hblank; lia].
Defined.

(** X9.  For a region whose history points are all between -1 and 1 (as
    they are when only sentiment scores were fed) the graph is drawn
    without an exception: nothing for an empty history, one line per
    history point otherwise. *)
Theorem region_graph_never_raises_in_range (data : region_data) :
  Forall in_unit (history data) ->
  exists r,
    region_graph data = Returns r /\
    match r with
    | None => history data = []
    | Some ls => history data <> [] /\ length ls = length (history data)
    end.
Proof.
  intros Hh. unfold region_graph.
  destruct (history data) as [|val rest] eqn:Hhist.
  - exists None. split; reflexivity.
  - rewrite bool_decide_eq_false_2 by discriminate.
    change (scale_value_to_graph (Int 0)) with (@Returns Z 20).
    destruct (graph_lines_run (val :: rest) Hh) as (ls & -> & Hlen).
    exists (Some ls). split; [reflexivity|]. split; [discriminate|exact Hlen].
Qed.

Lemma region_graph_never_raises_in_range_witness :
  let data := region_of (add_scores "Dallas" [1; -1; 0; 1] __init__).2 "Dallas" in
  exists ls, region_graph data = Returns (Some ls) /\ length ls = 4%nat.
Proof.
  intros data.
  destruct (region_graph_never_raises_in_range data) as (r & Hrun & Hr).
  - vm_compute. repeat constructor; discriminate.
  - destruct r as [ls|].
    + exists ls. split; [exact Hrun|]. destruct Hr as [_ ->]. reflexivity.
    + vm_compute in Hr. discriminate.
Defined.

End GraphFacts.

(** * The report server as a whole *)

Module ReportServer.
Import ReportSink.


Section Server.
Context `{Codec}.





End Server.

End ReportServer.

Section ServerFacts.
Import ReportSink ReportServer.
Context `{Codec}.








End ServerFacts.

Section ServerRun.
Import ReportSink ReportServer.



End ServerRun.

(** * More of the agent loop *)

Section LoopFacts.
Import Agent.
Context `{Services}.

Lemma get_region_snapshot_run region self :
  exists snap,
    get_region_snapshot region self =
      (Returns snap, {| regions := <[region := region_of self region]> (regions self) |}) /\
    snap_state snap = state (region_of self region) /\
    snap_short_term_avg snap = short_term_avg (region_of self region) /\
    snap_long_term_avg snap = long_term_avg (region_of self region).
Proof.
  unfold get_region_snapshot, copy, _get_or_create_region, region_of.
  unfold mbind, M_bind, bind, get, put, when, mret, M_ret, ret, raise. simpl.
  destruct (regions self !! region) as [d|] eqn:Hd; simpl.
  - rewrite Hd. eexists. split.
    { rewrite insert_id by exact Hd. destruct self; reflexivity. }
    simpl. repeat split.
  - rewrite lookup_insert_eq. eexists. split; [reflexivity|]. simpl. repeat split.
Qed.

(** The bundle that LOOP 2 builds for an item. *)
Definition bundle_of (snap : snapshot) (data : buckets) : final_bundle :=
  {| happiness_state := snap;
     bundle_network_metrics := network_metrics data;
     recent_posts := analyzed_posts data |}.

(** One step of LOOP 2 on an item that is not skipped. *)
Lemma decide_region_step decided region data st :
  skipped (region, data) = false ->
  exists snap,
    snap_state snap = state (region_of (tracker st) region) /\
    let b := bundle_of snap data in
    let '(dec, w) := get_proactive_decision region b (env st) in
    decide_region decided (region, data) st =
      (Returns (decided ++ [(region, b)]),
       {| tracker := {| regions := <[region := region_of (tracker st) region]>
                                     (regions (tracker st)) |};
          env := w;
          sent := sent st ++
                  match dec with
                  | Some dec => [ {| report_region := region; report_decision := dec;
                                     data_bundle := b |} ]
                  | None => []
                  end |}).
Proof.
  intros Hskip. unfold decide_region. unfold skipped in Hskip. simpl in Hskip.
  rewrite Hskip.
  destruct (get_region_snapshot_run region (tracker st)) as (snap & Hsnap & Hstate & _).
  exists snap. split; [exact Hstate|]. cbv zeta.
  unfold mbind, M_bind, bind, on_tracker, zoom, call, send_report_to_server, modify,
    mret, M_ret, ret, append.
  rewrite Hsnap. simpl. unfold bundle_of.
  destruct (get_proactive_decision _ _ _) as [[dec|] w]; simpl.
  - reflexivity.
  - rewrite app_nil_r. reflexivity.
Qed.

(** The regions of the items that LOOP 2 does not skip. *)
Definition kept (grouped_data : list (string * buckets)) : list (string * buckets) :=
  filter (fun item => skipped item = false) grouped_data.

Lemma kept_cons item grouped :
  kept (item :: grouped) = if skipped item then kept grouped else item :: kept grouped.
Proof.
  unfold kept. rewrite filter_cons.
  destruct (skipped item); [rewrite decide_False by discriminate|rewrite decide_True];
    reflexivity.
Qed.

(** What LOOP 2 leaves: the decided regions are the kept items in their
    order, each with its own buckets and the state that the tracker had
    for the region; the tracker gained a new dict for each of them that it
    did not know and nothing else; the reports sent are for decided
    regions, in order, at most one each. *)
Lemma foldM_decide_region_full grouped : forall decided st,
  exists out st' reports,
    foldM decide_region decided grouped st = (Returns (decided ++ out), st') /\
    out.*1 = (kept grouped).*1 /\
    Forall2 (fun o item =>
               bundle_network_metrics o.2 = network_metrics item.2 /\
               recent_posts o.2 = analyzed_posts item.2 /\
               snap_state (happiness_state o.2) = state (region_of (tracker st) item.1))
            out (kept grouped) /\
    (forall region,
       regions (tracker st') !! region =
         match regions (tracker st) !! region with
         | Some d => Some d
         | None => if bool_decide (region ∈ out.*1) then Some new_region else None
         end) /\
    sent st' = sent st ++ reports /\
    sublist ((fun r => (report_region r, data_bundle r)) <$> reports) out.
Proof.
  induction grouped as [|[region data] grouped IH]; intros decided st.
  - exists [], st, []. rewrite !app_nil_r. split; [reflexivity|].
    split; [reflexivity|]. split; [constructor|].
    split; [|split; [reflexivity|constructor]].
    intros region. destruct (regions (tracker st) !! region); reflexivity.
  - cbn [foldM]. unfold bind.
    pose proof (kept_cons (region, data) grouped) as Hkept.
    destruct (skipped (region, data)) eqn:Hskip.
    + assert (Hd : decide_region decided (region, data) st = (Returns decided, st)).
      { unfold decide_region. unfold skipped in Hskip. simpl in Hskip.
        rewrite Hskip. reflexivity. }
      rewrite Hd. rewrite Hkept. apply IH.
    + rewrite Hkept.
      destruct (decide_region_step decided region data st Hskip) as (snap & Hstate & Hstep).
      cbv zeta in Hstep.
      destruct (get_proactive_decision region (bundle_of snap data) (env st))
        as [dec w] eqn:Hdec.
      rewrite Hstep. set (st1 := {| tracker := _ |}).
      destruct (IH (decided ++ [(region, bundle_of snap data)]) st1)
        as (out & st' & reports & Hrun & Hkeys & Hall & Htr & Hsent & Hsub).
      assert (Hreg : forall r, state (region_of (tracker st1) r)
                               = state (region_of (tracker st) r)).
      { intros r. unfold region_of, st1. simpl.
        destruct (decide (region = r)) as [->|Hne].
        - rewrite lookup_insert_eq. reflexivity.
        - rewrite lookup_insert_ne by exact Hne. reflexivity. }
      exists ((region, bundle_of snap data) :: out), st'.
      exists (match dec with
              | Some dec => [ {| report_region := region; report_decision := dec;
                                 data_bundle := bundle_of snap data |} ]
              | None => []
              end ++ reports).
      split; [rewrite Hrun, <- app_assoc; reflexivity|].
      split; [simpl; f_equal; exact Hkeys|].
      split.
      { constructor; [simpl; auto|].
        eapply Forall2_impl; [exact Hall|]. intros o item (H1 & H2 & H3).
        rewrite Hreg in H3. auto. }
      split.
      { intros r. rewrite Htr. unfold st1. simpl.
        destruct (decide (region = r)) as [->|Hne].
        - rewrite lookup_insert_eq. unfold region_of.
          destruct (regions (tracker st) !! r); [reflexivity|].
          rewrite bool_decide_eq_true_2 by (left). reflexivity.
        - rewrite lookup_insert_ne by exact Hne.
          destruct (regions (tracker st) !! r); [reflexivity|].
          destruct (decide (r ∈ out.*1)).
          + rewrite !bool_decide_eq_true_2; [reflexivity|right; assumption|assumption].
          + rewrite !bool_decide_eq_false_2; [reflexivity| |assumption].
            intros [Heq|Hin]%elem_of_cons; [congruence|contradiction]. }
      split.
      { rewrite Hsent. unfold st1. simpl. rewrite <- app_assoc. reflexivity. }
      destruct dec as [dec|]; simpl.
      * apply sublist_skip. exact Hsub.
      * apply sublist_cons. exact Hsub.
Qed.

(** *** LOOP 1, event by event *)

Lemma score_map_get_sentiment label : sentiment (score_map_get label).
Proof.
  unfold score_map_get, sentiment.
  repeat (destruct (bool_decide _); [lia|]). lia.
Qed.

(** The grouping with the key of the event's region in it. *)
Definition with_key (k : string) (grouped_data : dict buckets) : dict buckets :=
  if negb (dict_contains k grouped_data)
  then dict_add k empty_buckets grouped_data else grouped_data.

(** Every way one step of LOOP 1 can go. *)
Inductive perceived (g : dict buckets) (e : event) (st : cycle_state)
  : outcome (dict buckets) -> cycle_state -> Prop :=
| skipped_event :
    truthy (ev_region e) = false ->
    perceived g e st (Returns g) st
| untyped_event k :
    ev_region e = Some k -> k <> "" -> ev_event_type e = None ->
    perceived g e st (Raises KeyError) st
| metric_event k :
    ev_region e = Some k -> k <> "" -> ev_event_type e = Some "network_metric" ->
    perceived g e st (Returns (dict_alter (add_network_metric e) k (with_key k g))) st
| unscored_event k etype st' :
    ev_region e = Some k -> k <> "" -> ev_event_type e = Some etype ->
    etype <> "network_metric" ->
    tracker st' = tracker st -> sent st' = sent st ->
    perceived g e st (Returns (with_key k g)) st'
| scored_event k a score o st' :
    ev_region e = Some k -> k <> "" -> is_text_event e -> a <> [] ->
    sentiment score ->
    add_sentiment_score k score (tracker st) = (o, tracker st') ->
    sent st' = sent st ->
    perceived g e st
      (match o with
       | Returns _ => Returns (dict_alter (add_analyzed_post (set_analysis a e)) k (with_key k g))
       | Raises ex => Raises ex
       end) st'.

Lemma truthy_Some k : truthy (Some k) = true -> k <> "".
Proof.
  unfold truthy. intros Hk ->. rewrite bool_decide_eq_true_2 in Hk by reflexivity.
  discriminate.
Qed.

Lemma perceive_perceived g e st :
  perceived g e st (perceive g e st).1 (perceive g e st).2.
Proof.
  unfold perceive.
  unfold mbind, M_bind, bind, call, on_tracker, zoom, mret, M_ret, ret, raise.
  destruct (truthy (ev_region e)) eqn:Htr; simpl; [|apply skipped_event; exact Htr].
  destruct (ev_region e) as [k|] eqn:Hk; [|discriminate]. simpl.
  apply truthy_Some in Htr. fold (with_key k g).
  destruct (ev_event_type e) as [etype|] eqn:Het; [|eapply untyped_event; eauto].
  destruct (bool_decide (etype = "network_metric")) eqn:Hm.
  { apply bool_decide_eq_true in Hm as ->. eapply metric_event; eauto. }
  apply bool_decide_eq_false in Hm.
  destruct (_ || _) eqn:Htext; [|eapply unscored_event; eauto].
  assert (Hte : is_text_event e).
  { unfold is_text_event. rewrite Het.
    apply orb_true_iff in Htext as [Ht|Ht]; apply bool_decide_eq_true in Ht as ->; auto. }
  destruct (negb (truthy (or_ _ _))); [eapply unscored_event; eauto|].
  destruct (get_event_analysis _ _) as [[[|kv a]|] w]; simpl;
    try (eapply unscored_event; eauto; reflexivity).
  destruct (add_sentiment_score k _ (tracker st)) as [o t'] eqn:Hadd. simpl.
  pose proof (scored_event g e st k (kv :: a) _ o
                {| tracker := t'; env := w; sent := sent st |}
                Hk Htr Hte ltac:(discriminate) (score_map_get_sentiment _) Hadd eq_refl)
    as Hp.
  destruct o as [[]|ex]; exact Hp.
Qed.





Lemma decide_and_act_run grouped_data st :
  exists out st' reports,
    decide_and_act grouped_data st = (Returns out, st') /\
    out.*1 = (kept grouped_data).*1 /\
    Forall2 (fun o item =>
               bundle_network_metrics o.2 = network_metrics item.2 /\
               recent_posts o.2 = analyzed_posts item.2 /\
               snap_state (happiness_state o.2) = state (region_of (tracker st) item.1))
            out (kept grouped_data) /\
    (forall region,
       regions (tracker st') !! region =
         match regions (tracker st) !! region with
         | Some d => Some d
         | None => if bool_decide (region ∈ out.*1) then Some new_region else None
         end) /\
    sent st' = sent st ++ reports /\
    sublist ((fun r => (report_region r, data_bundle r)) <$> reports) out.
Proof. apply (foldM_decide_region_full grouped_data [] st). Qed.


(** X13.  LOOP 2 never raises.  It decides on the items it does not skip,
    in the order of the grouping; each bundle carries the two buckets of
    its item and, as happiness state, the state the tracker had for the
    region when the loop started. *)
Theorem decided_regions_follow_the_grouping
    (grouped_data : dict buckets) (st : cycle_state) :
  exists out st',
    decide_and_act grouped_data st = (Returns out, st') /\
    out.*1 = (kept grouped_data).*1 /\
    Forall2 (fun o item =>
               bundle_network_metrics o.2 = network_metrics item.2 /\
               recent_posts o.2 = analyzed_posts item.2 /\
               snap_state (happiness_state o.2) = state (region_of (tracker st) item.1))
            out (kept grouped_data).
Proof.
  destruct (decide_and_act_run grouped_data st)
    as (out & st' & reports & Hrun & Hkeys & Hall & _).
  exists out, st'. auto.
Qed.

(** X14.  LOOP 2 only appends to the reports sent: the new reports are for
    decided regions, in the order they were decided, at most one per
    region, each with the bundle built for the region. *)
Theorem reports_follow_the_decisions (grouped_data : dict buckets) (st : cycle_state) :
  exists out st' reports,
    decide_and_act grouped_data st = (Returns out, st') /\
    sent st' = sent st ++ reports /\
    sublist ((fun r => (report_region r, data_bundle r)) <$> reports) out /\
    (length reports <= length out)%nat.
Proof.
  destruct (decide_and_act_run grouped_data st)
    as (out & st' & reports & Hrun & _ & _ & _ & Hsent & Hsub).
  exists out, st', reports. split; [exact Hrun|]. split; [exact Hsent|].
  split; [exact Hsub|].
  apply sublist_length in Hsub. rewrite length_fmap in Hsub. exact Hsub.
Qed.

(** X15.  LOOP 2 changes the tracker in one way only: a decided region
    that the tracker did not know gets the dict of a new region.  The
    dicts of the regions it knew are untouched, and a region that is not
    decided on is not created. *)
Theorem decisions_create_unknown_regions (grouped_data : dict buckets) (st : cycle_state) :
  exists out st',
    decide_and_act grouped_data st = (Returns out, st') /\
    forall region,
      regions (tracker st') !! region =
        match regions (tracker st) !! region with
        | Some d => Some d
        | None => if bool_decide (region ∈ out.*1) then Some new_region else None
        end.
Proof.
  destruct (decide_and_act_run grouped_data st)
    as (out & st' & reports & Hrun & _ & _ & Htr & _).
  exists out, st'. auto.
Qed.

(** *** What LOOP 1 groups *)

Lemma dict_get_alter {V} (f : V -> V) (r k : string) (g : dict V) :
  dict_get r (dict_alter f k g) =
    if bool_decide (r = k) then f <$> dict_get r g else dict_get r g.
Proof.
  induction g as [|[k' v] g IH]; simpl; [destruct (bool_decide _); reflexivity|].
  destruct (decide (k = k')) as [<-|Hkk'].
  - rewrite bool_decide_eq_true_2 by reflexivity. simpl.
    destruct (decide (r = k)) as [->|Hrk].
    + rewrite !bool_decide_eq_true_2 by reflexivity. reflexivity.
    + rewrite !bool_decide_eq_false_2 by exact Hrk. reflexivity.
  - rewrite (bool_decide_eq_false_2 (k = k')) by exact Hkk'. simpl.
    destruct (decide (r = k')) as [->|Hrk'].
    + rewrite bool_decide_eq_true_2 by reflexivity.
      rewrite bool_decide_eq_false_2 by congruence. reflexivity.
    + rewrite (bool_decide_eq_false_2 (r = k')) by exact Hrk'. exact IH.
Qed.

Lemma dict_get_add {V} (r k : string) (v : V) (g : dict V) :
  dict_get r (dict_add k v g) =
    match dict_get r g with
    | Some x => Some x
    | None => if bool_decide (r = k) then Some v else None
    end.
Proof.
  unfold dict_add. induction g as [|[k' v'] g IH]; simpl; [reflexivity|].
  destruct (bool_decide (r = k')); [reflexivity|exact IH].
Qed.

Lemma dict_get_None {V} (k : string) (g : dict V) :
  dict_get k g = None <-> ~ k ∈ g.*1.
Proof.
  induction g as [|[k' v] g IH]; simpl.
  - split; [intros _ Hin; inversion Hin|reflexivity].
  - rewrite elem_of_cons. simpl. destruct (decide (k = k')) as [->|Hne].
    + rewrite bool_decide_eq_true_2 by reflexivity. split; [discriminate|].
      intros Hn. exfalso. apply Hn. left. reflexivity.
    + rewrite bool_decide_eq_false_2 by exact Hne. rewrite IH. tauto.
Qed.

Lemma keys_alter {V} (f : V -> V) (k : string) (g : dict V) :
  (dict_alter f k g).*1 = g.*1.
Proof.
  induction g as [|[k' v] g IH]; simpl; [reflexivity|].
  destruct (bool_decide (k = k')); simpl; [reflexivity|]. f_equal. exact IH.
Qed.

Lemma elem_of_dict_get {V} (k : string) (v : V) (g : dict V) :
  NoDup g.*1 -> (k, v) ∈ g -> dict_get k g = Some v.
Proof.
  induction g as [|[k' v'] g IH]; simpl; intros Hnd Hin; [inversion Hin|].
  apply NoDup_cons in Hnd as [Hk' Hnd].
  apply elem_of_cons in Hin as [Heq|Hin].
  - injection Heq as <- <-. rewrite bool_decide_eq_true_2 by reflexivity. reflexivity.
  - destruct (decide (k = k')) as [->|Hne].
    + exfalso. apply Hk'. apply (list_elem_of_fmap_2 fst _ (k', v)). exact Hin.
    + rewrite bool_decide_eq_false_2 by exact Hne. apply IH; assumption.
Qed.

(** The regions of a batch in the order of their first event. *)
Definition note (seen : list string) (e : event) : list string :=
  match ev_region e with
  | Some k => if bool_decide (k = "") then seen
              else if bool_decide (k ∈ seen) then seen else seen ++ [k]
  | None => seen
  end.

(** The buckets under a region, empty when the region is not a key. *)
Definition buckets_of (region : string) (g : dict buckets) : buckets :=
  default empty_buckets (dict_get region g).

Definition is_metric_of (region : string) (e : event) : Prop :=
  ev_region e = Some region /\ ev_event_type e = Some "network_metric".

(** A post analyzed from a text event of the region. *)
Definition analyzed_from (region : string) (events : list event) (p : event) : Prop :=
  exists e a, e ∈ events /\ ev_region e = Some region /\ is_text_event e /\
              a <> [] /\ p = set_analysis a e.

Lemma keys_with_key k g :
  k <> "" -> (with_key k g).*1 = if bool_decide (k ∈ g.*1) then g.*1 else g.*1 ++ [k].
Proof.
  intros _. unfold with_key, dict_contains.
  destruct (dict_get k g) eqn:Hg; simpl.
  - rewrite bool_decide_eq_true_2; [reflexivity|].
    destruct (decide (k ∈ g.*1)) as [|Hn]; [assumption|].
    apply dict_get_None in Hn. congruence.
  - rewrite bool_decide_eq_false_2 by (apply dict_get_None; exact Hg).
    unfold dict_add. rewrite fmap_app. reflexivity.
Qed.

Lemma buckets_of_with_key r k g : buckets_of r (with_key k g) = buckets_of r g.
Proof.
  unfold buckets_of, with_key, dict_contains.
  destruct (dict_get k g) eqn:Hg; simpl; [reflexivity|].
  rewrite dict_get_add. destruct (dict_get r g) eqn:Hr; [reflexivity|].
  destruct (bool_decide (r = k)); reflexivity.
Qed.

Lemma buckets_of_alter f r k g :
  buckets_of r (dict_alter f k (with_key k g)) =
    if bool_decide (r = k) then f (buckets_of r g) else buckets_of r g.
Proof.
  unfold buckets_of at 1. rewrite dict_get_alter.
  destruct (decide (r = k)) as [->|Hne].
  - rewrite bool_decide_eq_true_2 by reflexivity.
    rewrite <- (buckets_of_with_key k k g). unfold buckets_of, with_key, dict_contains.
    destruct (dict_get k g) eqn:Hg; simpl; [rewrite Hg; reflexivity|].
    rewrite dict_get_add, Hg, bool_decide_eq_true_2 by reflexivity. reflexivity.
  - rewrite bool_decide_eq_false_2 by exact Hne. apply buckets_of_with_key.
Qed.

Lemma note_falsy seen e : truthy (ev_region e) = false -> note seen e = seen.
Proof.
  unfold note, truthy. destruct (ev_region e) as [k|]; [|reflexivity].
  intros Htr. apply negb_false_iff in Htr. rewrite Htr. reflexivity.
Qed.

Lemma note_region seen e k :
  ev_region e = Some k -> k <> "" ->
  note seen e = if bool_decide (k ∈ seen) then seen else seen ++ [k].
Proof.
  intros Hk Hne. unfold note. rewrite Hk.
  rewrite bool_decide_eq_false_2 by exact Hne. reflexivity.
Qed.

(** One returning step of LOOP 1, seen through the keys and the buckets. *)
Lemma perceived_view g e st g' st' :
  perceived g e st (Returns g') st' ->
  g'.*1 = note g.*1 e /\
  forall region, region <> "" ->
    network_metrics (buckets_of region g') =
      network_metrics (buckets_of region g)
      ++ (if decide (is_metric_of region e) then [e] else []) /\
    exists new,
      analyzed_posts (buckets_of region g') = analyzed_posts (buckets_of region g) ++ new /\
      (length new <= 1)%nat /\
      Forall (analyzed_from region [e]) new.
Proof.
  intros Hp.
  assert (Hnone : forall b region,
            ~ is_metric_of region e ->
            network_metrics b = network_metrics b
              ++ (if decide (is_metric_of region e) then [e] else []) /\
            exists new, analyzed_posts b = analyzed_posts b ++ new /\
                        (length new <= 1)%nat /\ Forall (analyzed_from region [e]) new).
  { intros b region Hn. rewrite decide_False by exact Hn. rewrite app_nil_r.
    split; [reflexivity|]. exists []. rewrite app_nil_r. simpl. auto. }
  inversion Hp as [Htr Ho Hst| |k Hk Hne Het Ho Hst
                  |k etype st1 Hk Hne Het Hnm Htrk Hsent Ho Hst
                  |k a score o' st1 Hk Hne Hte Ha Hz Hadd Hsent Ho Hst]; subst.
  - split.
    + rewrite note_falsy by exact Htr. reflexivity.
    + intros region Hr. apply Hnone. intros [Hreg _]. rewrite Hreg in Htr.
      unfold truthy in Htr. rewrite bool_decide_eq_false_2 in Htr by exact Hr.
      discriminate.
  - split.
    + rewrite keys_alter, keys_with_key by exact Hne.
      rewrite (note_region _ _ k) by assumption. reflexivity.
    + intros region Hr. rewrite buckets_of_alter.
      destruct (decide (region = k)) as [->|Hrk].
      * rewrite bool_decide_eq_true_2 by reflexivity. simpl.
        rewrite decide_True by (split; assumption). split; [reflexivity|].
        exists []. rewrite app_nil_r. simpl. auto.
      * rewrite bool_decide_eq_false_2 by exact Hrk. apply Hnone.
        intros [Hreg _]. congruence.
  - split.
    + rewrite keys_with_key by exact Hne.
      rewrite (note_region _ _ k) by assumption. reflexivity.
    + intros region Hr. rewrite buckets_of_with_key. apply Hnone.
      intros [_ Hty]. congruence.
  - destruct o' as [[]|ex]; [|discriminate]. injection Ho as <-.
    split.
    + rewrite keys_alter, keys_with_key by exact Hne.
      rewrite (note_region _ _ k) by assumption. reflexivity.
    + intros region Hr. rewrite buckets_of_alter.
      assert (Hnm : ~ is_metric_of region e).
      { intros [_ Hty]. destruct Hte as [Ht|Ht]; congruence. }
      destruct (decide (region = k)) as [->|Hrk].
      * rewrite bool_decide_eq_true_2 by reflexivity. simpl.
        rewrite decide_False by exact Hnm. rewrite app_nil_r. split; [reflexivity|].
        exists [set_analysis a e]. split; [reflexivity|]. split; [simpl; lia|].
        constructor; [|constructor]. exists e, a.
        split; [left|]. auto.
      * rewrite bool_decide_eq_false_2 by exact Hrk. apply Hnone. exact Hnm.
Qed.

Lemma note_NoDup seen e : NoDup seen -> NoDup (note seen e).
Proof.
  intros Hnd. unfold note. destruct (ev_region e) as [k|]; [|exact Hnd].
  destruct (bool_decide (k = "")); [exact Hnd|].
  destruct (bool_decide (k ∈ seen)) eqn:Hk; [exact Hnd|].
  apply bool_decide_eq_false in Hk.
  apply NoDup_app. split; [exact Hnd|]. split; [|apply NoDup_singleton].
  intros x Hx Hx'. apply list_elem_of_singleton in Hx' as ->. contradiction.
Qed.

Lemma note_no_empty seen e : ~ "" ∈ seen -> ~ "" ∈ note seen e.
Proof.
  intros Hn. unfold note. destruct (ev_region e) as [k|]; [|exact Hn].
  destruct (bool_decide (k = "")) eqn:Hk; [exact Hn|].
  destruct (bool_decide (k ∈ seen)); [exact Hn|].
  apply bool_decide_eq_false in Hk.
  intros [Hin|Hin]%elem_of_app; [contradiction|].
  apply list_elem_of_singleton in Hin. congruence.
Qed.

Lemma foldM_perceive_view events : forall g st g' st',
  foldM perceive g events st = (Returns g', st') ->
  g'.*1 = foldl note g.*1 events /\
  forall region, region <> "" ->
    network_metrics (buckets_of region g') =
      network_metrics (buckets_of region g)
      ++ filter (is_metric_of region) events /\
    exists new,
      analyzed_posts (buckets_of region g') = analyzed_posts (buckets_of region g) ++ new /\
      (length new <= length events)%nat /\
      Forall (analyzed_from region events) new.
Proof.
  induction events as [|e events IH]; intros g st g' st'.
  - simpl. intros [= <- <-]. split; [reflexivity|]. intros region _.
    rewrite app_nil_r. split; [reflexivity|]. exists []. rewrite app_nil_r. auto.
  - cbn [foldM]. unfold bind.
    pose proof (perceive_perceived g e st) as Hp.
    destruct (perceive g e st) as [[g1|ex] st1]; [|discriminate]. simpl in Hp.
    intros Hrun. destruct (perceived_view _ _ _ _ _ Hp) as [Hk1 Hv1].
    destruct (IH _ _ _ _ Hrun) as [Hk Hv].
    split; [simpl; rewrite Hk, Hk1; reflexivity|].
    intros region Hr.
    destruct (Hv1 region Hr) as (Hn1 & new1 & Hp1 & Hl1 & Hf1).
    destruct (Hv region Hr) as (Hn & new & Hp' & Hl & Hf).
    split.
    + rewrite Hn, Hn1, <- app_assoc, filter_cons.
      destruct (decide (is_metric_of region e)); reflexivity.
    + exists (new1 ++ new). split; [rewrite Hp', Hp1, app_assoc; reflexivity|].
      split; [rewrite length_app; simpl; lia|].
      apply Forall_app. split.
      * eapply Forall_impl; [exact Hf1|]. intros p (e0 & a & Hin & Hrest).
        exists e0, a. split; [|exact Hrest].
        apply list_elem_of_singleton in Hin as ->. left.
      * eapply Forall_impl; [exact Hf|]. intros p (e0 & a & Hin & Hrest).
        exists e0, a. split; [right; exact Hin|exact Hrest].
Qed.

(** X16.  When LOOP 1 returns, the keys of the grouping are the non-empty
    regions of the batch, each once, in the order of their first event;
    the network metrics under a region are the batch's network_metric
    events of that region, unchanged and in batch order; and each analyzed
    post under a region is a text event of that region from the batch with
    a non-empty analysis attached. *)
Theorem grouping_of_a_batch
    (events : list event) (st : cycle_state)
    (grouped_data : dict buckets) (st' : cycle_state) :
  perceive_and_analyze events st = (Returns grouped_data, st') ->
  grouped_data.*1 = foldl note [] events /\
  NoDup grouped_data.*1 /\
  forall region data, (region, data) ∈ grouped_data ->
    region <> "" /\
    network_metrics data = filter (is_metric_of region) events /\
    (length (analyzed_posts data) <= length events)%nat /\
    Forall (analyzed_from region events) (analyzed_posts data).
Proof.
  intros Hrun. destruct (foldM_perceive_view events [] st _ _ Hrun) as [Hkeys Hview].
  assert (Hnd : NoDup grouped_data.*1 /\ ~ "" ∈ grouped_data.*1).
  { rewrite Hkeys. clear.
    assert (Hgen : forall seen, NoDup seen /\ ~ "" ∈ seen ->
                     NoDup (foldl note seen events) /\ ~ "" ∈ foldl note seen events).
    { induction events as [|e events IH]; intros seen Hs; [exact Hs|].
      simpl. apply IH. destruct Hs. split; [apply note_NoDup|apply note_no_empty]; auto. }
    apply Hgen. split; [constructor|]. intros Hin. inversion Hin. }
  destruct Hnd as [Hnd Hne].
  split; [exact Hkeys|]. split; [exact Hnd|].
  intros region data Hin.
  assert (Hr : region <> "").
  { intros ->. apply Hne. apply (list_elem_of_fmap_2 fst _ ("", data)). exact Hin. }
  split; [exact Hr|].
  destruct (Hview region Hr) as (Hn & new & Hp & Hl & Hf).
  unfold buckets_of in Hn, Hp. rewrite (elem_of_dict_get _ _ _ Hnd Hin) in Hn, Hp.
  simpl in Hn, Hp. rewrite Hn, Hp. auto.
Qed.

Lemma foldl_note_NoDup events : forall seen,
  NoDup seen -> NoDup (foldl note seen events).
Proof.
  induction events as [|e events IH]; intros seen Hs; [exact Hs|].
  simpl. apply IH. apply note_NoDup. exact Hs.
Qed.

Lemma foldl_note_elem events : forall seen region,
  region ∈ foldl note seen events ->
  region ∈ seen \/ exists e, e ∈ events /\ ev_region e = Some region /\ region <> "".
Proof.
  induction events as [|e events IH]; intros seen region Hin; [left; exact Hin|].
  simpl in Hin. destruct (IH _ _ Hin) as [Hn|(e0 & He0 & Hrest)].
  - unfold note in Hn. destruct (ev_region e) as [k|] eqn:Hk; [|left; exact Hn].
    destruct (bool_decide (k = "")) eqn:Hemp; [left; exact Hn|].
    destruct (bool_decide (k ∈ seen)); [left; exact Hn|].
    apply elem_of_app in Hn as [Hn|Hn]; [left; exact Hn|].
    apply list_elem_of_singleton in Hn as ->. right. exists e.
    apply bool_decide_eq_false in Hemp. split; [left|]. auto.
  - right. exists e0. split; [right; exact He0|exact Hrest].
Qed.

Lemma kept_keys_sublist grouped : sublist (kept grouped).*1 grouped.*1.
Proof.
  induction grouped as [|item grouped IH]; [constructor|].
  rewrite kept_cons. destruct (skipped item); simpl.
  - apply sublist_cons. exact IH.
  - apply sublist_skip. exact IH.
Qed.

(** X17.  A cycle decides at most once per region: the decided regions are
    pairwise distinct, they follow the order in which the regions first
    appear in the batch, and each of them is the non-empty region, other
    than "global", of some event of the batch. *)
Theorem one_decision_per_region
    (events : list event) (st : cycle_state)
    (out : dict final_bundle) (st' : cycle_state) :
  cycle events st = (Returns out, st') ->
  NoDup out.*1 /\
  sublist out.*1 (foldl note [] events) /\
  forall region, region ∈ out.*1 ->
    region <> "global" /\
    exists e, e ∈ events /\ ev_region e = Some region /\ region <> "".
Proof.
  intros Hrun. destruct (cycle_run _ _ _ _ Hrun) as (g & st1 & Hrun1 & Hrun2).
  destruct (foldM_perceive_view events [] st _ _ Hrun1) as [Hkeys _].
  destruct (decide_and_act_run g st1) as (out2 & st2 & reports & Hrun2' & Hout & _).
  rewrite Hrun2 in Hrun2'. injection Hrun2' as <- <-.
  assert (Hkeys' : g.*1 = foldl note [] events) by exact Hkeys.
  assert (Hsub : sublist out.*1 (foldl note [] events)).
  { rewrite Hout, <- Hkeys'. apply kept_keys_sublist. }
  split; [apply (sublist_NoDup _ (foldl note [] events));
          [apply foldl_note_NoDup; constructor|exact Hsub]|].
  split; [exact Hsub|].
  intros region Hin. split.
  - rewrite Hout in Hin. apply list_elem_of_fmap in Hin as ([r data] & -> & Hin).
    unfold kept in Hin. apply list_elem_of_filter in Hin as [Hskip _].
    unfold skipped in Hskip. simpl in *. intros ->. discriminate.
  - apply (elem_of_sublist _ _ _ Hin) in Hsub. rename Hsub into Hin'.
    destruct (foldl_note_elem _ _ _ Hin') as [Hnil|He]; [inversion Hnil|exact He].
Qed.

End LoopFacts.

Section LoopRun.
Import Agent.




Lemma grouping_of_a_batch_witness :
  let events := [network_metric "Chicago";
                 social_media_post "Austin" "love the new plan";
                 network_metric "Chicago"] in
  exists grouped_data st',
    @perceive_and_analyze scripted events start = (Returns grouped_data, st') /\
    grouped_data.*1 = ["Chicago"; "Austin"].
Proof.
  intros events.
  destruct (@perceive_and_analyze scripted events start) as [[g|ex] st'] eqn:Hrun;
    [|vm_compute in Hrun; discriminate].
  exists g, st'. split; [reflexivity|].
  destruct (@grouping_of_a_batch scripted events start g st' Hrun) as [Hkeys _].
  rewrite Hkeys. vm_compute. reflexivity.
Defined.

Lemma one_decision_per_region_witness :
  let events := [network_metric "Chicago"; app_crash;
                 social_media_post "Austin" "love the new plan";
                 network_metric "Chicago"] in
  exists out st',
    @cycle scripted events start = (Returns out, st') /\ NoDup out.*1.
Proof.
  intros events.
  destruct (@cycle scripted events start) as [[out|ex] st'] eqn:Hrun;
    [|vm_compute in Hrun; discriminate].
  exists out, st'. split; [reflexivity|].
  apply (@one_decision_per_region scripted events start out st' Hrun).
Defined.

End LoopRun.
